(** * chaoslib.control: resolution, validation and application of controls

    A shallow embedding of [chaoslib/control/__init__.py].

    Python dictionaries with a fixed set of keys are records whose
    fields are options ([None] when the key is absent), Python lists are
    Rocq lists, and a list object that the code mutates in place is
    threaded explicitly: a function that appends to [context["controls"]]
    returns the new contents of that list next to its result.  A raised
    exception is a value of [Exception]; a call that can raise returns
    [option Exception] ([None] for a normal return). *)

From Stdlib Require Import List String Bool Arith Lia.
Import ListNotations.
Local Open Scope string_scope.
Local Open Scope list_scope.

(** ** Data model *)

(** The value of a control's ["scope"] key: a string or a list of strings. *)
Inductive ScopeValue : Type :=
| ScopeStr (s : string)
| ScopeList (l : list string).

(** A ["provider"] dictionary; the code reads its ["type"] key only, the
    ["module"] key stands for the rest of the dictionary. *)
Record Provider : Type := mkProvider {
  p_type : option string;
  p_module : option string
}.

(** A control declaration (chaoslib.types.Control, a dictionary). *)
Record Control : Type := mkControl {
  c_name : option string;
  c_ref : option string;
  c_scope : option ScopeValue;
  c_automatic : option bool;
  c_provider : option Provider
}.

Record Activity : Type := mkActivity {
  a_name : string;
  a_controls : list Control
}.

Record SteadyStateHypothesis : Type := mkHypothesis {
  h_probes : list Activity;
  h_controls : list Control
}.

(** An absent ["controls"], ["method"] or ["rollbacks"] key reads as the
    empty list ([experiment.get(key, [])]). *)
Record Experiment : Type := mkExperiment {
  e_controls : list Control;
  e_hypothesis : option SteadyStateHypothesis;
  e_method : list Activity;
  e_rollbacks : list Activity
}.

(** The [context] argument: the node whose controls are being resolved.
    At the experiment, method and rollback levels the callers pass the
    experiment itself; then [context["controls"]] and
    [experiment["controls"]] are one and the same list object. *)
Inductive ContextNode : Type :=
| CtxExperiment
| CtxActivity (a : Activity)
| CtxHypothesis (h : SteadyStateHypothesis).

(** [context.get("controls", [])]. *)
Definition context_controls (experiment : Experiment) (context : ContextNode)
  : list Control :=
  match context with
  | CtxExperiment => e_controls experiment
  | CtxActivity a => a_controls a
  | CtxHypothesis h => h_controls h
  end.

(** The experiment and the context once the list object held by
    [context["controls"]] has got the contents [l].  For a node other
    than the experiment the new contents are carried by the context
    alone: the experiment record is returned as it was, and what it
    holds for that node under its hypothesis, method or rollbacks is the
    node as declared.  The statements below read the controls of a node
    through the context, and through the experiment its top-level list
    only. *)
Definition with_controls (experiment : Experiment) (context : ContextNode)
  (l : list Control) : Experiment * ContextNode :=
  match context with
  | CtxExperiment =>
      ({| e_controls := l; e_hypothesis := e_hypothesis experiment;
          e_method := e_method experiment;
          e_rollbacks := e_rollbacks experiment |}, CtxExperiment)
  | CtxActivity a =>
      (experiment, CtxActivity {| a_name := a_name a; a_controls := l |})
  | CtxHypothesis h =>
      (experiment, CtxHypothesis {| h_probes := h_probes h; h_controls := l |})
  end.

Inductive Exception : Type :=
| KeyError (key : string)
| InvalidControl
| InvalidActivity
| InterruptExecution
| OtherException (what : string).

Definition is_interrupt (e : Exception) : bool :=
  match e with
  | InterruptExecution => true
  | _ => false
  end.

(** ** Python idioms *)

(** [copy.deepcopy]: values carry no identity here, the copy is the value. *)
Definition deepcopy {A : Type} (x : A) : A := x.

(** [a == b] on the results of [dict.get]: [None == None] holds. *)
Definition opt_eqb (a b : option string) : bool :=
  match a, b with
  | Some x, Some y => String.eqb x y
  | None, None => true
  | _, _ => false
  end.

(** [not name] is false exactly for a present, non-empty string. *)
Definition str_truthy (o : option string) : bool :=
  match o with
  | Some s => negb (String.eqb s "")
  | None => false
  end.

(** [c.get("automatic", True)]. *)
Definition is_automatic (c : Control) : bool :=
  match c_automatic c with
  | Some b => b
  | None => true
  end.

(** Truth value of [control.get("scope")]. *)
Definition scope_truthy (o : option ScopeValue) : bool :=
  match o with
  | None => false
  | Some (ScopeStr s) => negb (String.eqb s "")
  | Some (ScopeList l) => match l with [] => false | _ => true end
  end.

(** [scope in target_scope], a string having been wrapped in a list. *)
Definition scope_in (scope : string) (o : option ScopeValue) : bool :=
  match o with
  | None => false
  | Some (ScopeStr s) => String.eqb scope s
  | Some (ScopeList l) => existsb (String.eqb scope) l
  end.

(** Truth value of a provider dictionary: false when it has no key. *)
Definition provider_truthy (p : Provider) : bool :=
  match p_type p, p_module p with
  | None, None => false
  | _, _ => true
  end.

(** [control.get("provider", {}).get("type") == "python"]. *)
Definition is_python (c : Control) : bool :=
  match c_provider c with
  | Some p => opt_eqb (p_type p) (Some "python")
  | None => false
  end.

Definition is_empty {A : Type} (l : list A) : bool :=
  match l with
  | [] => true
  | _ => false
  end.

(** ** get_all_activities, get_controls *)

Definition get_all_activities (experiment : Experiment) : list Activity :=
  match e_hypothesis experiment with
  | Some h => h_probes h
  | None => []
  end ++ e_method experiment ++ e_rollbacks experiment.

Definition get_controls (experiment : Experiment) : list Control :=
  e_controls experiment
  ++ match e_hypothesis experiment with
     | Some h => h_controls h
     | None => []
     end
  ++ flat_map a_controls (get_all_activities experiment).

(** ** get_context_controls *)

(** The inner loop of the [ref] branch,
    [for top_level_control in top_level_controls], appending to
    [controls]; [c["ref"] == top_level_control["name"]] raises [KeyError]
    on a top-level entry without a name. *)
Fixpoint append_referenced (r : string) (top_level_controls controls : list Control)
  : list Control * option Exception :=
  match top_level_controls with
  | [] => (controls, None)
  | top_level_control :: rest =>
      match c_name top_level_control with
      | None => (controls, Some (KeyError "name"))
      | Some n =>
          if String.eqb r n
          then (controls ++ [deepcopy top_level_control], None)
          else append_referenced r rest controls
      end
  end.

(** The inner loop of the other branch, [for tc in top_level_controls]:
    stop at the first top-level entry with the name of [c], append every
    automatic entry met before it. *)
Fixpoint append_inherited (c : Control) (top_level_controls controls : list Control)
  : list Control :=
  match top_level_controls with
  | [] => controls
  | tc :: rest =>
      if opt_eqb (c_name c) (c_name tc) then controls
      else append_inherited c rest
             (if is_automatic tc then controls ++ [deepcopy tc] else controls)
  end.

(** The outer loop, [for c in controls.copy()], over the snapshot taken
    before the first append. *)
Fixpoint merge_loop (snapshot top_level_controls controls : list Control)
  : list Control * option Exception :=
  match snapshot with
  | [] => (controls, None)
  | c :: rest =>
      match c_ref c with
      | Some r =>
          match append_referenced r top_level_controls controls with
          | (controls', None) => merge_loop rest top_level_controls controls'
          | raised => raised
          end
      | None =>
          merge_loop rest top_level_controls
            (append_inherited c top_level_controls controls)
      end
  end.

(** [get_context_controls(experiment, context)].  The first component is
    the experiment and the context as the call leaves them: in the
    merging branch [controls] is the very list held by
    [context["controls"]], so every append is visible through the context
    afterwards.  The second component is the returned list, or the
    exception raised.

    When the context is the experiment, [top_level_controls] is that same
    list and grows while it is iterated; [merge_loop_live] below runs the
    loops on the growing list and [merge_loop_live_agrees] shows that
    they compute [merge_loop] on the list as it was at the call. *)
Definition get_context_controls (experiment : Experiment) (context : ContextNode)
  : (Experiment * ContextNode) * (list Control + Exception) :=
  let top_level_controls := e_controls experiment in
  let controls := context_controls experiment context in
  if is_empty controls && is_empty top_level_controls then
    ((experiment, context), inl [])
  else if is_empty controls then
    ((experiment, context),
     inl (map deepcopy (filter is_automatic top_level_controls)))
  else
    match merge_loop controls top_level_controls controls with
    | (controls', None) =>
        (with_controls experiment context controls', inl controls')
    | (controls', Some e) =>
        (with_controls experiment context controls', inr e)
    end.

(** ** The provider boundary

    [chaoslib.control.python] is outside this module.  Its functions run
    user code; they are taken as parameters acting on an abstract world
    (whatever user code reads and writes), with the exception they raise,
    if any.  They are assumed to leave the control declarations of the
    experiment alone.  The [configuration] and [secrets] arguments are
    passed through unchanged and left out. *)

Section Engine.

Variable World : Type.

(** The [state] argument of a post hook: a journal, a run or a list of runs. *)
Variable Payload : Type.

Variable apply_python_control :
  string -> Control -> ContextNode -> option Payload -> World ->
  World * option Exception.
Variable initialize_control : Control -> World -> World * option Exception.
Variable cleanup_control : Control -> World -> World * option Exception.
Variable validate_python_control : Control -> option Exception.

(** One call of [apply_python_control], as recorded for the proofs: the
    [level], [control] and [state] arguments it received and the
    exception it raised, if any. *)
Record Call : Type := mkCall {
  call_level : string;
  call_control : Control;
  call_state : option Payload;
  call_raised : option Exception
}.

(** ** initialize_controls, cleanup_controls *)

(** [provider and provider["type"] == "python"], where [provider] is
    [control.get("provider")]: a dictionary with keys but without
    ["type"] raises [KeyError]. *)
Definition python_provider_declared (control : Control) : bool + Exception :=
  match c_provider control with
  | None => inl false
  | Some p =>
      if provider_truthy p then
        match p_type p with
        | None => inr (KeyError "type")
        | Some t => inl (String.eqb t "python")
        end
      else inl false
  end.

(** The loop shared by [initialize_controls] and [cleanup_controls], for
    the provider function [hook]; returns the controls [hook] was called
    on, in call order. *)
Fixpoint once_per_name (hook : Control -> World -> World * option Exception)
  (controls : list Control) (seen : list string) (w : World)
  : World * list Control * option Exception :=
  match controls with
  | [] => (w, [], None)
  | control :: rest =>
      match c_name control with
      | Some name =>
          if negb (str_truthy (Some name)) || existsb (String.eqb name) seen
          then once_per_name hook rest seen w
          else
            let seen := seen ++ [name] in
            match python_provider_declared control with
            | inr e => (w, [], Some e)
            | inl false => once_per_name hook rest seen w
            | inl true =>
                match hook control w with
                | (w', Some e) => (w', [control], Some e)
                | (w', None) =>
                    let '(w'', called, raised) := once_per_name hook rest seen w' in
                    (w'', control :: called, raised)
                end
            end
      | None => once_per_name hook rest seen w
      end
  end.

Definition initialize_controls (experiment : Experiment) (w : World)
  : World * list Control * option Exception :=
  let controls := get_controls experiment in
  once_per_name initialize_control controls [] w.

Definition cleanup_controls (experiment : Experiment) (w : World)
  : World * list Control * option Exception :=
  let controls := get_controls experiment in
  once_per_name cleanup_control controls [] w.

(** ** validate_controls *)

(** [[c["name"] for c in get_controls(experiment) if "ref" not in c]]. *)
Fixpoint collect_references (controls : list Control) : list string + Exception :=
  match controls with
  | [] => inl []
  | c :: rest =>
      match c_ref c with
      | Some _ => collect_references rest
      | None =>
          match c_name c with
          | None => inr (KeyError "name")
          | Some n =>
              match collect_references rest with
              | inl names => inl (n :: names)
              | inr e => inr e
              end
          end
      end
  end.

Fixpoint check_references (controls : list Control) (references : list string)
  : option Exception :=
  match controls with
  | [] => None
  | c :: rest =>
      match c_ref c with
      | Some r =>
          if negb (existsb (String.eqb r) references) then Some InvalidControl
          else check_references rest references
      | None => check_references rest references
      end
  end.

Fixpoint validate_providers (controls : list Control) : option Exception :=
  match controls with
  | [] => None
  | control :: rest =>
      if is_python control then
        match validate_python_control control with
        | Some e => Some e
        | None => validate_providers rest
        end
      else validate_providers rest
  end.

(** [validate_controls(experiment)]: the exception raised, if any. *)
Definition validate_controls (experiment : Experiment) : option Exception :=
  match collect_references (get_controls experiment) with
  | inr e => Some e
  | inl references =>
      match check_references (get_controls experiment) references with
      | Some e => Some e
      | None => validate_providers (get_controls experiment)
      end
  end.

(** ** apply_controls *)

(** The loop [for control in controls].  [level] is a loop-carried
    variable: the body assigns ["{}-{}".format(level, scope)] to it
    before each call of a python provider.  Returns the calls made, in
    order. *)
Fixpoint apply_loop (controls : list Control) (level scope : string)
  (context : ContextNode) (state : option Payload) (w : World)
  : World * list Call * option Exception :=
  match controls with
  | [] => (w, [], None)
  | control :: rest =>
      let target_scope := c_scope control in
      if negb (scope_truthy target_scope) then
        apply_loop rest level scope context state w
      else if negb (scope_in scope target_scope) then
        apply_loop rest level scope context state w
      else if is_python control then
        let level := (level ++ "-" ++ scope)%string in
        let '(w', raised) := apply_python_control level control context state w in
        let call := {| call_level := level; call_control := control;
                       call_state := state; call_raised := raised |} in
        match raised with
        | Some e =>
            if is_interrupt e then (w', [call], Some e)
            else
              let '(w'', calls, raised) :=
                apply_loop rest level scope context state w' in
              (w'', call :: calls, raised)
        | None =>
            let '(w'', calls, raised) :=
              apply_loop rest level scope context state w' in
            (w'', call :: calls, raised)
        end
      else apply_loop rest level scope context state w
  end.

Definition apply_controls (level : string) (experiment : Experiment)
  (context : ContextNode) (scope : string) (state : option Payload) (w : World)
  : (Experiment * ContextNode) * World * list Call * option Exception :=
  match get_context_controls experiment context with
  | (tree, inr e) => (tree, w, [], Some e)
  | (tree, inl controls) =>
      if is_empty controls then (tree, w, [], None)
      else
        let '(w', calls, raised) :=
          apply_loop controls level scope (snd tree) state w in
        (tree, w', calls, raised)
  end.

(** ** class Control, controls *)

(** An instance of the class [Control]: its [state] attribute. *)
Record ControlInstance : Type := mkControlInstance {
  state : option Payload
}.

Definition begin (self : ControlInstance) (level : string)
  (experiment : Experiment) (context : ContextNode) (w : World)
  : ControlInstance * ((Experiment * ContextNode) * World * list Call * option Exception) :=
  let self := {| state := None |} in
  (self, apply_controls level experiment context "pre" None w).

Definition with_state (self : ControlInstance) (s : option Payload)
  : ControlInstance :=
  {| state := s |}.

Definition end_ (self : ControlInstance) (level : string)
  (experiment : Experiment) (context : ContextNode) (w : World)
  : ControlInstance * ((Experiment * ContextNode) * World * list Call * option Exception) :=
  let s := state self in
  let self := {| state := None |} in
  (self, apply_controls level experiment context "post" s w).

(** The context manager [controls] around the block [body] of a [with]
    statement.  [body] gets the instance yielded and the world, and gives
    back the instance (after any [with_state]), the world and the
    exception it raised, if any.  The [finally] clause runs [c.end]
    whether [c.begin] or the block raised or not; an exception raised by
    [c.end] replaces the pending one. *)
Definition controls (level : string) (experiment : Experiment)
  (context : ContextNode)
  (body : ControlInstance -> World -> ControlInstance * World * option Exception)
  (w : World)
  : (Experiment * ContextNode) * World * list Call * option Exception :=
  let c := {| state := None |} in
  let '(c, (tree, w, calls_begin, raised)) := begin c level experiment context w in
  let '(c, w, pending) :=
    match raised with
    | Some e => (c, w, Some e)
    | None => body c w
    end in
  let '(c, (tree, w, calls_end, raised)) := end_ c level (fst tree) (snd tree) w in
  (tree, w, calls_begin ++ calls_end,
   match raised with
   | Some e => Some e
   | None => pending
   end).

End Engine.

Arguments mkCall {Payload}.
Arguments call_level {Payload}.
Arguments call_control {Payload}.
Arguments call_state {Payload}.
Arguments call_raised {Payload}.

(** ** Iteration over a list that grows

    When [context] is the experiment, [for tc in top_level_controls]
    iterates the list that [controls.append] extends.  A Python list
    iterator reads its list by index, so it reaches the entries appended
    during the loop.  [fuel] bounds the number of iterations; [None] is
    a loop cut short by it.  In the [ref] branch the one append is
    followed by [break], so that loop sees the list as it was. *)

Fixpoint append_inherited_live (fuel : nat) (c : Control) (i : nat)
  (controls : list Control) : option (list Control) :=
  match fuel with
  | 0 => None
  | S fuel' =>
      match nth_error controls i with
      | None => Some controls
      | Some tc =>
          if opt_eqb (c_name c) (c_name tc) then Some controls
          else append_inherited_live fuel' c (S i)
                 (if is_automatic tc then controls ++ [deepcopy tc] else controls)
      end
  end.

Fixpoint merge_loop_live (fuel : nat) (snapshot controls : list Control)
  : option (list Control * option Exception) :=
  match snapshot with
  | [] => Some (controls, None)
  | c :: rest =>
      match c_ref c with
      | Some r =>
          match append_referenced r controls controls with
          | (controls', None) => merge_loop_live fuel rest controls'
          | raised => Some raised
          end
      | None =>
          match append_inherited_live fuel c 0 controls with
          | Some controls' => merge_loop_live fuel rest controls'
          | None => None
          end
      end
  end.

(** ** Vocabulary of the statements *)

(** [r == t["name"]] for a top-level entry [t] that has a name. *)
Definition name_is (r : string) (t : Control) : bool :=
  opt_eqb (Some r) (c_name t).

(** What a local entry with [ref = r] appends: the first top-level
    control named [r], if there is one. *)
Definition referenced (r : string) (top_level_controls : list Control)
  : list Control :=
  match find (name_is r) top_level_controls with
  | Some t => [t]
  | None => []
  end.

(** What a local entry without [ref] appends. *)
Definition inherited (c : Control) (top_level_controls : list Control)
  : list Control :=
  append_inherited c top_level_controls [].

Definition appended_by (top_level_controls : list Control) (c : Control)
  : list Control :=
  match c_ref c with
  | Some r => referenced r top_level_controls
  | None => inherited c top_level_controls
  end.

(** The test [apply_controls] makes before it calls a provider. *)
Definition applies (scope : string) (control : Control) : bool :=
  scope_truthy (c_scope control) && scope_in scope (c_scope control)
  && is_python control.

Definition raised_interrupt {Payload : Type} (call : Call Payload) : bool :=
  match call_raised call with
  | Some e => is_interrupt e
  | None => false
  end.

(** What a run of the loop of [apply_controls] over [controls] did,
    read off the calls it made and the exception it raised: on a normal
    return every control that applies was called, in order, and no call
    raised the interrupt; otherwise the exception is the interrupt
    raised by the last call, made on some control [c] of the list, the
    controls that apply before [c] were all called, and those after it
    were not. *)
Definition loop_outcome {Payload : Type} (scope : string)
  (controls : list Control) (calls : list (Call Payload))
  (raised : option Exception) : Prop :=
  match raised with
  | None =>
      map call_control calls = filter (applies scope) controls
      /\ Forall (fun k => raised_interrupt k = false) calls
  | Some e =>
      is_interrupt e = true
      /\ exists before c after earlier last,
           controls = before ++ c :: after
           /\ calls = earlier ++ [last]
           /\ map call_control earlier = filter (applies scope) before
           /\ call_control last = c
           /\ applies scope c = true
           /\ call_raised last = Some e
           /\ Forall (fun k => raised_interrupt k = false) earlier
  end.

(** The reading of a [ref] entry under which the resolved control takes
    the place of the entry in the returned list. *)
Definition ref_entry_replaced (experiment : Experiment) (context : ContextNode)
  : Prop :=
  forall c r res,
    In c (context_controls experiment context) ->
    c_ref c = Some r ->
    snd (get_context_controls experiment context) = inl res ->
    ~ In c res /\
    (forall t, find (name_is r) (e_controls experiment) = Some t -> In t res).

(** ** Sample declarations *)

Definition python_provider (module : string) : Provider :=
  {| p_type := Some "python"; p_module := Some module |}.

(** An inline control with a python provider, applied in the scopes [sc]. *)
Definition inline_control (n : string) (sc : list string) : Control :=
  {| c_name := Some n; c_ref := None; c_scope := Some (ScopeList sc);
     c_automatic := None;
     c_provider := Some (python_provider "fixtures.controls.dummy") |}.

(** The same, kept out of automatic inheritance. *)
Definition manual_control (n : string) (sc : list string) : Control :=
  {| c_name := Some n; c_ref := None; c_scope := Some (ScopeList sc);
     c_automatic := Some false;
     c_provider := Some (python_provider "fixtures.controls.dummy") |}.

(** A bare reference [{"ref": r}]. *)
Definition ref_control (r : string) : Control :=
  {| c_name := None; c_ref := Some r; c_scope := None;
     c_automatic := None; c_provider := None |}.

Definition experiment_with (top_level_controls : list Control)
  (method : list Activity) : Experiment :=
  {| e_controls := top_level_controls; e_hypothesis := None;
     e_method := method; e_rollbacks := [] |}.

Definition activity_with (n : string) (local : list Control) : Activity :=
  {| a_name := n; a_controls := local |}.

Definition dummy : Control := inline_control "dummy" ["pre"; "post"].
Definition paused : Control := manual_control "paused" ["pre"].

(** A top-level control, a local control of the same name with another
    scope, and two unrelated ones. *)
Definition tracing_top : Control := inline_control "tracing" ["pre"; "post"].
Definition tracing_local : Control := inline_control "tracing" ["pre"].
Definition metrics : Control := inline_control "metrics" ["pre"].
Definition logging : Control := inline_control "logging" ["post"].

(** Controls and a provider for the application of controls: the
    provider counts its calls in the world, raises [InterruptExecution]
    for the control named ["aborter"] and another exception for the one
    named ["broken"]. *)
Definition aborter : Control := inline_control "aborter" ["pre"; "post"].
Definition unscoped : Control :=
  {| c_name := Some "unscoped"; c_ref := None; c_scope := None;
     c_automatic := None;
     c_provider := Some (python_provider "fixtures.controls.dummy") |}.

Definition sample_provider (level : string) (control : Control)
  (context : ContextNode) (state : option unit) (w : nat)
  : nat * option Exception :=
  (S w,
   if opt_eqb (c_name control) (Some "aborter") then Some InterruptExecution
   else if opt_eqb (c_name control) (Some "broken")
        then Some (OtherException "failed")
        else None).

(** A provider that always returns normally. *)
Definition quiet_provider (level : string) (control : Control)
  (context : ContextNode) (state : option unit) (w : unit)
  : unit * option Exception :=
  (w, None).

(** The calls of [initialize_control] or [cleanup_control] made for an
    experiment respect "once per name, first declaration wins": no two
    of the controls called share a name, and each control called is
    preceded, among the declared controls, by no control of its name. *)
Definition once_first_wins (experiment : Experiment) (called : list Control)
  : Prop :=
  NoDup (map c_name called)
  /\ forall c, In c called ->
       exists before after,
         get_controls experiment = before ++ c :: after
         /\ forall c', In c' before -> c_name c' <> c_name c.

(** A declaration with neither ["name"] nor ["ref"]. *)
Definition anonymous : Control :=
  {| c_name := None; c_ref := None; c_scope := Some (ScopeList ["pre"]);
     c_automatic := None; c_provider := None |}.

(** The [level] variable of the loop of [apply_controls] after [n]
    provider calls: [level] followed by [n] times ["-" ++ scope]. *)
Fixpoint level_tag (level scope : string) (n : nat) : string :=
  match n with
  | 0 => level
  | S m => (level_tag level scope m ++ "-" ++ scope)%string
  end.

(** A control scoped to words the context manager never uses, and one
    with a provider of another type. *)
Definition misscoped : Control := inline_control "misscoped" ["before"; "after"].
Definition http_control : Control :=
  {| c_name := Some "http"; c_ref := None; c_scope := Some (ScopeList ["pre"]);
     c_automatic := None;
     c_provider := Some {| p_type := Some "http"; p_module := None |} |}.

(** A block that records a state with [with_state] and raises. *)
Definition failing_block (c : ControlInstance unit) (w : nat)
  : ControlInstance unit * nat * option Exception :=
  (with_state unit c (Some tt), w, Some (OtherException "block")).

(** Two declarations of one name, the first with a provider that is not
    of type ["python"]. *)
Definition shared_http : Control :=
  {| c_name := Some "shared"; c_ref := None; c_scope := Some (ScopeList ["pre"]);
     c_automatic := None;
     c_provider := Some {| p_type := Some "http"; p_module := None |} |}.
Definition shared_python : Control := inline_control "shared" ["pre"].

(** Provider functions for initialization and cleanup: one that returns
    normally, one that raises on the control named ["broken"]; both
    count their calls in the world. *)
Definition counting_hook (control : Control) (w : nat) : nat * option Exception :=
  (S w, None).

(** The positive side of "first declaration wins": every control that is
    the first one declared with its non-empty name and has a provider of
    type ["python"] is among the controls called. *)
Definition first_declarations_handled (experiment : Experiment)
  (called : list Control) : Prop :=
  forall before d after n,
    get_controls experiment = before ++ d :: after ->
    c_name d = Some n -> n <> "" ->
    (forall x, In x before -> c_name x <> Some n) ->
    python_provider_declared d = inl true ->
    In d called.

(** * Properties *)

(** ** Facts about the merging loops *)

Lemma opt_eqb_refl (a : option string) : opt_eqb a a = true.
Proof. destruct a as [s|]; simpl; [apply String.eqb_refl | reflexivity]. Qed.

Lemma opt_eqb_eq (a b : option string) : opt_eqb a b = true <-> a = b.
Proof.
  destruct a as [x|], b as [y|]; simpl; split; intro H;
    try discriminate; try reflexivity.
  - apply String.eqb_eq in H. now subst.
  - injection H as ->. apply String.eqb_refl.
Qed.

Lemma append_inherited_app (c : Control) (T acc : list Control) :
  append_inherited c T acc = acc ++ inherited c T.
Proof.
  unfold inherited. revert acc.
  induction T as [|tc T IH]; intros acc; simpl.
  - now rewrite app_nil_r.
  - destruct (opt_eqb (c_name c) (c_name tc)).
    + now rewrite app_nil_r.
    + destruct (is_automatic tc).
      * rewrite (IH (acc ++ [deepcopy tc])), (IH [deepcopy tc]).
        now rewrite app_assoc.
      * apply IH.
Qed.

Lemma in_inherited (c x : Control) (T : list Control) :
  In x (inherited c T) ->
  In x T /\ is_automatic x = true /\ c_name x <> c_name c.
Proof.
  unfold inherited.
  induction T as [|tc T IH]; simpl; [tauto|].
  destruct (opt_eqb (c_name c) (c_name tc)) eqn:E; [simpl; tauto|].
  destruct (is_automatic tc) eqn:A.
  - rewrite append_inherited_app. simpl. intros [<- | H].
    + unfold deepcopy. repeat split; auto.
      intro N. rewrite N, opt_eqb_refl in E. discriminate.
    + destruct (IH H) as (? & ? & ?). auto.
  - intro H. destruct (IH H) as (? & ? & ?). auto.
Qed.

Lemma in_referenced (r : string) (x : Control) (T : list Control) :
  In x (referenced r T) -> In x T /\ c_name x = Some r.
Proof.
  unfold referenced. destruct (find (name_is r) T) as [t|] eqn:F; simpl; [|tauto].
  intros [<- | []]. apply find_some in F. destruct F as [I N].
  split; [exact I|]. unfold name_is in N. apply opt_eqb_eq in N. now symmetry.
Qed.

Lemma append_referenced_returns (r : string) (T acc acc' : list Control) :
  append_referenced r T acc = (acc', None) -> acc' = acc ++ referenced r T.
Proof.
  unfold referenced.
  induction T as [|t T IH]; simpl.
  - intros [= <-]. now rewrite app_nil_r.
  - unfold name_is at 1. simpl. destruct (c_name t) as [n|]; [|discriminate].
    destruct (String.eqb r n).
    + now intros [= <-].
    + exact IH.
Qed.

Lemma append_referenced_named (r : string) (T acc : list Control) :
  Forall (fun t => c_name t <> None) T ->
  snd (append_referenced r T acc) = None.
Proof.
  induction 1 as [|t T N _ IH]; simpl; [reflexivity|].
  destruct (c_name t) as [n|]; [|congruence].
  destruct (String.eqb r n); [reflexivity | exact IH].
Qed.

Lemma merge_loop_returns (snapshot T acc acc' : list Control) :
  merge_loop snapshot T acc = (acc', None) ->
  acc' = acc ++ flat_map (appended_by T) snapshot.
Proof.
  revert acc.
  induction snapshot as [|c rest IH]; intros acc; simpl.
  - intros [= <-]. now rewrite app_nil_r.
  - unfold appended_by at 1. destruct (c_ref c) as [r|].
    + destruct (append_referenced r T acc) as [acc1 [e|]] eqn:R; [discriminate|].
      apply append_referenced_returns in R. subst acc1.
      intro H. apply IH in H. now rewrite H, app_assoc.
    + rewrite append_inherited_app. intro H. apply IH in H.
      now rewrite H, app_assoc.
Qed.

Lemma merge_loop_named (snapshot T acc : list Control) :
  Forall (fun t => c_name t <> None) T ->
  snd (merge_loop snapshot T acc) = None.
Proof.
  intro N. revert acc.
  induction snapshot as [|c rest IH]; intros acc; simpl; [reflexivity|].
  destruct (c_ref c) as [r|]; [|apply IH].
  pose proof (append_referenced_named r T acc N) as R.
  destruct (append_referenced r T acc) as [acc1 [e|]]; simpl in R;
    [discriminate | apply IH].
Qed.

(** The list returned in the merging branch: the local entries as they
    are, then what each of them appended, in turn. *)
Lemma get_context_controls_merged (experiment : Experiment)
  (context : ContextNode) (res : list Control) :
  context_controls experiment context <> [] ->
  snd (get_context_controls experiment context) = inl res ->
  res = context_controls experiment context
        ++ flat_map (appended_by (e_controls experiment))
             (context_controls experiment context).
Proof.
  unfold get_context_controls. intro NE.
  destruct (context_controls experiment context) as [|c L] eqn:EL; [congruence|].
  cbn [is_empty andb].
  destruct (merge_loop (c :: L) (e_controls experiment) (c :: L))
    as [acc [e|]] eqn:M; cbn [snd]; [discriminate|].
  intros [= <-]. exact (merge_loop_returns _ _ _ _ M).
Qed.

Lemma get_context_controls_total (experiment : Experiment)
  (context : ContextNode) :
  Forall (fun t => c_name t <> None) (e_controls experiment) ->
  exists res, snd (get_context_controls experiment context) = inl res.
Proof.
  intro N. unfold get_context_controls.
  destruct (is_empty (context_controls experiment context)
            && is_empty (e_controls experiment)); [eexists; reflexivity|].
  destruct (is_empty (context_controls experiment context));
    [eexists; reflexivity|].
  pose proof (merge_loop_named (context_controls experiment context)
                (e_controls experiment)
                (context_controls experiment context) N) as R.
  destruct (merge_loop _ _ _) as [acc [e|]]; simpl in R; [discriminate|].
  eexists; reflexivity.
Qed.

Lemma is_automatic_default (t : Control) :
  is_automatic t = true <-> c_automatic t <> Some false.
Proof.
  unfold is_automatic. destruct (c_automatic t) as [[|]|]; split; congruence.
Qed.

Lemma get_context_controls_no_local (experiment : Experiment)
  (context : ContextNode) :
  context_controls experiment context = [] ->
  get_context_controls experiment context
  = ((experiment, context),
     inl (map deepcopy (filter is_automatic (e_controls experiment)))).
Proof.
  intro E. unfold get_context_controls. rewrite E. simpl.
  destruct (e_controls experiment); reflexivity.
Qed.

(** ** Resolution of the effective controls *)

(** C5: a node without local controls gets copies of exactly the
    top-level controls whose automatic flag is true, an omitted flag
    counting as true, and nothing is mutated; a top-level control with
    [automatic] false is in no list returned for a node that neither
    refers to it by [ref] nor declares a control of its name; with no
    controls anywhere the result is empty. *)
Theorem automatic_controls_inherited (experiment : Experiment)
  (context : ContextNode) :
  (context_controls experiment context = [] ->
   get_context_controls experiment context
   = ((experiment, context),
      inl (map deepcopy (filter is_automatic (e_controls experiment))))
   /\ (forall t, In t (map deepcopy (filter is_automatic (e_controls experiment)))
                 <-> In t (e_controls experiment) /\ c_automatic t <> Some false))
  /\ (forall t res,
        In t (e_controls experiment) ->
        c_automatic t = Some false ->
        (forall c r, In c (context_controls experiment context) ->
                     c_ref c = Some r -> c_name t <> Some r) ->
        (forall c, In c (context_controls experiment context) ->
                   c_name c <> c_name t) ->
        snd (get_context_controls experiment context) = inl res ->
        ~ In t res)
  /\ (context_controls experiment context = [] ->
      e_controls experiment = [] ->
      get_context_controls experiment context = ((experiment, context), inl [])).
Proof.
  split; [|split].
  - intro E. split.
    + now apply get_context_controls_no_local.
    + intro t. unfold deepcopy. rewrite map_id, filter_In, is_automatic_default.
      tauto.
  - intros t res IT A NoRef NoName R I.
    assert (NA : is_automatic t = false) by (unfold is_automatic; now rewrite A).
    destruct (context_controls experiment context) as [|c0 L] eqn:E.
    + rewrite (get_context_controls_no_local _ _ E) in R. cbn [snd] in R.
      injection R as <-. unfold deepcopy in I. rewrite map_id in I.
      apply filter_In in I. destruct I as [_ I]. congruence.
    + apply get_context_controls_merged in R; [|rewrite E; discriminate].
      rewrite E in R. subst res. apply in_app_or in I. destruct I as [I|I].
      * exact (NoName t I eq_refl).
      * apply in_flat_map in I. destruct I as (c & Ic & I).
        unfold appended_by in I. destruct (c_ref c) as [r|] eqn:Cr.
        -- apply in_referenced in I. destruct I as [_ N].
           exact (NoRef c r Ic Cr N).
        -- apply in_inherited in I. destruct I as (_ & Au & _). congruence.
  - intros E ET. unfold get_context_controls. now rewrite E, ET.
Qed.

Lemma automatic_controls_inherited_witness :
  get_context_controls (experiment_with [dummy; paused] [])
    (CtxActivity (activity_with "probe" []))
  = ((experiment_with [dummy; paused] [],
      CtxActivity (activity_with "probe" [])), inl [dummy])
  /\ ~ In paused [inline_control "local" ["pre"]; dummy].
Proof.
  pose proof (automatic_controls_inherited
                (experiment_with [dummy; paused] [])
                (CtxActivity (activity_with "probe" []))) as [H1 _].
  pose proof (automatic_controls_inherited
                (experiment_with [dummy; paused] [])
                (CtxActivity (activity_with "probe" [inline_control "local" ["pre"]])))
    as (_ & H2 & _).
  split.
  - exact (proj1 (H1 eq_refl)).
  - apply (H2 paused).
    + simpl; auto.
    + reflexivity.
    + intros c r [<- | []]. discriminate.
    + intros c [<- | []]. discriminate.
    + reflexivity.
Defined.

(** C4 as stated fails: the entry [{"ref": "dummy"}] is itself in the
    list returned, next to the control it refers to. *)
Lemma ref_entry_stays_in_result :
  ~ ref_entry_replaced (experiment_with [dummy] [])
      (CtxActivity (activity_with "probe" [ref_control "dummy"]))
  /\ snd (get_context_controls (experiment_with [dummy] [])
            (CtxActivity (activity_with "probe" [ref_control "dummy"])))
     = inl [ref_control "dummy"; dummy].
Proof.
  split; [|reflexivity].
  intro H.
  destruct (H (ref_control "dummy") "dummy" [ref_control "dummy"; dummy])
    as [N _]; try reflexivity.
  - simpl; auto.
  - apply N. simpl; auto.
Qed.

(** C4, amended: when the call returns, the list returned is the local
    entries as declared, the entry with [ref] among them, followed by
    what each local entry appended; an entry with [ref = r] appends a
    copy of the first top-level control named [r], and nothing when no
    top-level control has that name. *)
Theorem ref_entry_appends_first_match (experiment : Experiment)
  (context : ContextNode) (c : Control) (r : string) (res : list Control) :
  In c (context_controls experiment context) ->
  c_ref c = Some r ->
  snd (get_context_controls experiment context) = inl res ->
  res = context_controls experiment context
        ++ flat_map (appended_by (e_controls experiment))
             (context_controls experiment context)
  /\ In c res
  /\ appended_by (e_controls experiment) c
     = match find (name_is r) (e_controls experiment) with
       | Some t => [deepcopy t]
       | None => []
       end
  /\ (forall t, find (name_is r) (e_controls experiment) = Some t -> In t res).
Proof.
  intros I Cr R.
  assert (E : res = context_controls experiment context
                    ++ flat_map (appended_by (e_controls experiment))
                         (context_controls experiment context)).
  { apply get_context_controls_merged; [|exact R].
    intro N. rewrite N in I. exact I. }
  assert (A : appended_by (e_controls experiment) c
              = match find (name_is r) (e_controls experiment) with
                | Some t => [deepcopy t]
                | None => []
                end).
  { unfold appended_by, referenced. now rewrite Cr. }
  repeat split; auto.
  - rewrite E. apply in_or_app. now left.
  - intros t F. rewrite E. apply in_or_app. right.
    apply in_flat_map. exists c. split; [exact I|].
    rewrite A, F. simpl; auto.
Qed.

Lemma ref_entry_appends_first_match_witness :
  [ref_control "paused"; paused]
  = [ref_control "paused"]
    ++ flat_map (appended_by [dummy; paused]) [ref_control "paused"]
  /\ In (ref_control "paused") [ref_control "paused"; paused]
  /\ appended_by [dummy; paused] (ref_control "paused") = [deepcopy paused]
  /\ (forall t, Some paused = Some t -> In t [ref_control "paused"; paused]).
Proof.
  apply (ref_entry_appends_first_match
           (experiment_with [dummy; paused] [])
           (CtxActivity (activity_with "probe" [ref_control "paused"]))
           (ref_control "paused") "paused" [ref_control "paused"; paused]).
  - simpl; auto.
  - reflexivity.
  - reflexivity.
Defined.

(** C1, the code at inputs where it departs from the claim: a top-level
    automatic control that shares its name with a local control is
    appended all the same when another local control precedes that one;
    a top-level control is appended once per local control that does
    not stop the scan; and the top-level controls that follow the one a
    local control shadows are not appended at all. *)
Theorem shadowed_control_is_inherited :
  snd (get_context_controls (experiment_with [tracing_top] [])
         (CtxActivity (activity_with "probe" [metrics; tracing_local])))
  = inl [metrics; tracing_local; tracing_top]
  /\ c_name tracing_top = c_name tracing_local
  /\ snd (get_context_controls (experiment_with [logging] [])
            (CtxActivity (activity_with "probe" [metrics; tracing_local])))
     = inl [metrics; tracing_local; logging; logging]
  /\ snd (get_context_controls (experiment_with [tracing_top; logging] [])
            (CtxActivity (activity_with "probe" [tracing_local])))
     = inl [tracing_local].
Proof. repeat split. Qed.

(** C2, the code at an input where it departs from the claim: the call
    appends to the list held by the node, so the node's declarations
    have changed when it returns, and the next call on the same
    experiment and node returns a longer list. *)
Theorem get_context_controls_appends_to_context :
  let experiment := experiment_with [dummy] [] in
  let context := CtxActivity (activity_with "probe" [metrics]) in
  let context' := CtxActivity (activity_with "probe" [metrics; dummy]) in
  let context'' := CtxActivity (activity_with "probe" [metrics; dummy; dummy]) in
  get_context_controls experiment context
  = ((experiment, context'), inl [metrics; dummy])
  /\ context_controls experiment context' <> context_controls experiment context
  /\ get_context_controls experiment context'
     = ((experiment, context''), inl [metrics; dummy; dummy]).
Proof. repeat split. discriminate. Qed.

(** ** Application of the controls *)

Lemma scope_truthy_false (o : option ScopeValue) :
  scope_truthy o = false <->
  o = None \/ o = Some (ScopeStr "") \/ o = Some (ScopeList []).
Proof.
  destruct o as [[s|l]|]; simpl.
  - rewrite negb_false_iff, String.eqb_eq. split.
    + intros ->. auto.
    + intros [H|[H|H]]; congruence.
  - destruct l; split; auto; try discriminate.
    intros [H|[H|H]]; discriminate.
  - split; auto.
Qed.


Lemma loop_outcome_skip {Payload : Type} (scope : string) (control : Control)
  (rest : list Control) (calls : list (Call Payload))
  (raised : option Exception) :
  applies scope control = false ->
  loop_outcome scope rest calls raised ->
  loop_outcome scope (control :: rest) calls raised.
Proof.
  intros NA H. destruct raised as [e|]; simpl in *.
  - destruct H as (I & before & c & after & earlier & last & -> & H).
    split; [exact I|].
    exists (control :: before), c, after, earlier, last.
    simpl. now rewrite NA.
  - now rewrite NA.
Qed.

Lemma loop_outcome_call {Payload : Type} (scope : string) (k : Call Payload)
  (rest : list Control) (calls : list (Call Payload))
  (raised : option Exception) :
  applies scope (call_control k) = true ->
  raised_interrupt k = false ->
  loop_outcome scope rest calls raised ->
  loop_outcome scope (call_control k :: rest) (k :: calls) raised.
Proof.
  intros A NI H. destruct raised as [e|]; simpl in *.
  - destruct H as (I & before & c & after & earlier & last & -> & -> & M & H).
    split; [exact I|].
    exists (call_control k :: before), c, after, (k :: earlier), last.
    simpl. rewrite A, M. destruct H as (? & ? & ? & ?). repeat split; auto.
  - rewrite A. destruct H as [M F]. rewrite M. split; auto.
Qed.

Lemma loop_outcome_stop {Payload : Type} (scope : string) (k : Call Payload)
  (rest : list Control) (e : Exception) :
  applies scope (call_control k) = true ->
  call_raised k = Some e ->
  is_interrupt e = true ->
  @loop_outcome Payload scope (call_control k :: rest) [k] (Some e).
Proof.
  intros A R I. simpl. split; [exact I|].
  exists [], (call_control k), rest, [], k. simpl. repeat split; auto.
Qed.

Section Application.

Variable World : Type.
Variable Payload : Type.
Variable apply_python_control :
  string -> Control -> ContextNode -> option Payload -> World ->
  World * option Exception.

Let loop := apply_loop World Payload apply_python_control.
Let apply := apply_controls World Payload apply_python_control.

Lemma apply_loop_skip (control : Control) (rest : list Control)
  (level scope : string) (context : ContextNode) (st : option Payload)
  (w : World) :
  applies scope control = false ->
  loop (control :: rest) level scope context st w
  = loop rest level scope context st w.
Proof.
  unfold applies, loop. simpl. intro NA.
  destruct (scope_truthy (c_scope control)); simpl in *; [|reflexivity].
  destruct (scope_in scope (c_scope control)); simpl in *; [|reflexivity].
  now rewrite NA.
Qed.

(** A control that applies is called with the level tag built from the
    current value of [level], and the loop goes on with that tag as its
    [level] unless the call raised the interrupt. *)
Lemma apply_loop_call (control : Control) (rest : list Control)
  (level scope : string) (context : ContextNode) (st : option Payload)
  (w : World) :
  applies scope control = true ->
  loop (control :: rest) level scope context st w
  = let level' := (level ++ "-" ++ scope)%string in
    let '(w1, r1) := apply_python_control level' control context st w in
    let k := {| call_level := level'; call_control := control;
                call_state := st; call_raised := r1 |} in
    if raised_interrupt k then (w1, [k], r1)
    else
      let '(w2, calls, raised) := loop rest level' scope context st w1 in
      (w2, k :: calls, raised).
Proof.
  unfold applies, loop. cbn [apply_loop]. intro A.
  apply andb_prop in A. destruct A as [A PY].
  apply andb_prop in A. destruct A as [ST SI].
  rewrite ST, SI, PY. cbn [negb]. cbv zeta.
  destruct (apply_python_control (level ++ "-" ++ scope)%string control
              context st w) as [w1 [e1|]]; unfold raised_interrupt;
    cbn [call_raised]; [|reflexivity].
  destruct (is_interrupt e1); reflexivity.
Qed.

Lemma apply_loop_outcome (controls : list Control) (level scope : string)
  (context : ContextNode) (st : option Payload) (w w' : World)
  (calls : list (Call Payload)) (raised : option Exception) :
  loop controls level scope context st w = (w', calls, raised) ->
  loop_outcome scope controls calls raised.
Proof.
  revert level w w' calls raised.
  induction controls as [|control rest IH]; intros level w w' calls raised.
  - unfold loop. simpl. intros [= <- <- <-]. simpl. auto.
  - destruct (applies scope control) eqn:A.
    + rewrite apply_loop_call by exact A. cbv zeta.
      destruct (apply_python_control (level ++ "-" ++ scope)%string control
                  context st w) as [w1 r1].
      set (k := {| call_level := (level ++ "-" ++ scope)%string;
                   call_control := control; call_state := st;
                   call_raised := r1 |}).
      destruct (raised_interrupt k) eqn:RI.
      * intros [= <- <- <-]. unfold raised_interrupt in RI.
        destruct (call_raised k) as [e|] eqn:R; [|discriminate].
        simpl in R. subst r1.
        exact (loop_outcome_stop scope k rest e A eq_refl RI).
      * destruct (loop rest (level ++ "-" ++ scope)%string scope context st w1)
          as [[w2 calls2] raised2] eqn:L.
        intros [= <- <- <-].
        exact (loop_outcome_call scope k rest calls2 raised2 A RI
                 (IH _ _ _ _ _ L)).
    + rewrite apply_loop_skip by exact A. intro H.
      apply loop_outcome_skip; [exact A|]. exact (IH _ _ _ _ _ H).
Qed.


Lemma loop_outcome_calls_apply (scope : string) (controls : list Control)
  (calls : list (Call Payload)) (raised : option Exception) (k : Call Payload) :
  loop_outcome scope controls calls raised ->
  In k calls -> applies scope (call_control k) = true.
Proof.
  intros H I.
  assert (F : forall l (x : Call Payload) l',
             map call_control l = filter (applies scope) l' ->
             In x l -> applies scope (call_control x) = true).
  { intros l x l' M Ix. apply (in_map call_control) in Ix.
    rewrite M in Ix. apply filter_In in Ix. tauto. }
  destruct raised as [e|]; simpl in H.
  - destruct H as (_ & before & c & after & earlier & last & _ & -> & M & <- & A & _).
    apply in_app_or in I. destruct I as [I | [<- | []]].
    + exact (F _ _ _ M I).
    + exact A.
  - destruct H as [M _]. exact (F _ _ _ M I).
Qed.


(** C9: a control whose [scope] key is absent, or holds the empty
    string or the empty list, is not among the controls called by
    [apply_controls], whatever the level and the scope, nor among those
    called by the context manager [controls] on entry and on exit. *)
Theorem control_without_scope_is_never_applied (level : string)
  (experiment : Experiment) (context : ContextNode) (scope : string)
  (st : option Payload) (w : World) (control : Control)
  (body : ControlInstance Payload -> World ->
          ControlInstance Payload * World * option Exception) :
  c_scope control = None \/ c_scope control = Some (ScopeStr "")
  \/ c_scope control = Some (ScopeList []) ->
  ~ In control
      (map call_control
         (snd (fst (apply_controls World Payload apply_python_control
                      level experiment context scope st w))))
  /\ ~ In control
         (map call_control
            (snd (fst (controls World Payload apply_python_control
                         level experiment context body w)))).
Proof.
  intro S. apply scope_truthy_false in S.
  assert (N : forall sc, applies sc control = false)
    by (intro sc; unfold applies; now rewrite S).
  assert (K : forall lv e c sc s0 x,
             ~ In control (map call_control (snd (fst (apply lv e c sc s0 x))))).
  { intros lv e c sc s0 x I. apply in_map_iff in I. destruct I as (k & <- & I).
    unfold apply, apply_controls in I.
    destruct (get_context_controls e c) as [tree0 [l|ex]]; [|exact I].
    destruct (is_empty l); [exact I|].
    destruct (apply_loop World Payload apply_python_control l lv sc
                (snd tree0) s0 x) as [[w1 calls1] raised1] eqn:L.
    cbn [fst snd] in I.
    pose proof (loop_outcome_calls_apply _ _ _ _ k
                  (apply_loop_outcome _ _ _ _ _ _ _ _ _ L) I) as A.
    rewrite N in A. discriminate. }
  split; [apply K|].
  unfold controls, begin, end_. fold apply.
  pose proof (K level experiment context "pre" None w) as K1.
  destruct (apply level experiment context "pre" None w)
    as [[[tree1 w1] calls1] raised1].
  cbn [fst snd] in K1.
  destruct (match raised1 with
            | Some e => ({| state := None |}, w1, Some e)
            | None => body {| state := None |} w1
            end) as [[c1 w1'] pending].
  pose proof (K level (fst tree1) (snd tree1) "post" (state Payload c1) w1') as K2.
  destruct (apply level (fst tree1) (snd tree1) "post" (state Payload c1) w1')
    as [[[tree2 w2] calls2] raised2].
  cbn [fst snd] in *. rewrite map_app. intro I.
  apply in_app_or in I. tauto.
Qed.

(** C10: when the application of the pre-scope controls raises, the
    block is not run, the post-scope controls are applied from the
    state the failed application left, and only then does an exception
    leave [controls]: the one raised on entry, unless the post-scope
    application raised one itself. *)
Theorem controls_end_runs_after_begin_raised (level : string)
  (experiment : Experiment) (context : ContextNode)
  (body : ControlInstance Payload -> World ->
          ControlInstance Payload * World * option Exception)
  (w w1 : World) (tree1 : Experiment * ContextNode)
  (calls1 : list (Call Payload)) (e1 : Exception) :
  apply_controls World Payload apply_python_control
    level experiment context "pre" None w = (tree1, w1, calls1, Some e1) ->
  exists tree2 w2 calls2 raised2,
    apply_controls World Payload apply_python_control
      level (fst tree1) (snd tree1) "post" None w1
    = (tree2, w2, calls2, raised2)
    /\ controls World Payload apply_python_control
         level experiment context body w
       = (tree2, w2, calls1 ++ calls2,
          Some match raised2 with
               | Some e2 => e2
               | None => e1
               end).
Proof.
  intro B. unfold controls, begin, end_. rewrite B. cbn [state].
  destruct (apply_controls World Payload apply_python_control level
              (fst tree1) (snd tree1) "post" None w1)
    as [[[tree2 w2] calls2] raised2].
  exists tree2, w2, calls2, raised2. split; [reflexivity|].
  destruct raised2; reflexivity.
Qed.

End Application.


Lemma control_without_scope_is_never_applied_witness :
  (c_scope unscoped = None \/ c_scope unscoped = Some (ScopeStr "")
   \/ c_scope unscoped = Some (ScopeList []))
  /\ ~ In unscoped
         (map call_control
            (snd (fst (apply_controls nat unit sample_provider "activity"
                         (experiment_with [unscoped; dummy] [])
                         (CtxActivity (activity_with "probe" []))
                         "pre" None 0))))
  /\ ~ In unscoped
         (map call_control
            (snd (fst (controls nat unit sample_provider "activity"
                         (experiment_with [unscoped; dummy] [])
                         (CtxActivity (activity_with "probe" []))
                         (fun c w => (c, w, None)) 0)))).
Proof.
  split; [left; reflexivity|].
  apply (control_without_scope_is_never_applied nat unit sample_provider).
  left; reflexivity.
Defined.

Lemma controls_end_runs_after_begin_raised_witness :
  let experiment := experiment_with [aborter] [] in
  let context := CtxActivity (activity_with "probe" []) in
  let k := {| call_level := "activity-pre"; call_control := aborter;
              call_state := None;
              call_raised := Some InterruptExecution |} in
  apply_controls nat unit sample_provider
    "activity" experiment context "pre" None 0
  = ((experiment, context), 1, [k], Some InterruptExecution)
  /\ exists tree2 w2 calls2 raised2,
       apply_controls nat unit sample_provider
         "activity" experiment context "post" None 1
       = (tree2, w2, calls2, raised2)
       /\ controls nat unit sample_provider
            "activity" experiment context (fun c w => (c, w, None)) 0
          = (tree2, w2, [k] ++ calls2,
             Some match raised2 with
                  | Some e2 => e2
                  | None => InterruptExecution
                  end).
Proof.
  intros experiment context k. split; [reflexivity|].
  apply (controls_end_runs_after_begin_raised nat unit sample_provider
           "activity" experiment context (fun c w => (c, w, None)) 0 1
           (experiment, context) [k] InterruptExecution).
  reflexivity.
Defined.

(** C6, the code where it departs from the claim: with two controls
    applied at one point, the first call not raising the interrupt, the
    second provider call gets the tag built from the tag of the first,
    ["<level>-<scope>-<scope>"]. *)
Theorem level_tag_accumulates (World Payload : Type)
  (apply_python_control :
     string -> Control -> ContextNode -> option Payload -> World ->
     World * option Exception)
  (level scope : string) (st : option Payload) (w : World)
  (c1 c2 : Control) :
  let experiment := experiment_with [c1; c2] [] in
  let context := CtxActivity (activity_with "probe" []) in
  is_automatic c1 = true -> is_automatic c2 = true ->
  applies scope c1 = true -> applies scope c2 = true ->
  (forall e,
      snd (apply_python_control (level ++ "-" ++ scope)%string c1 context st w)
      = Some e ->
      is_interrupt e = false) ->
  map call_level
    (snd (fst (apply_controls World Payload apply_python_control
                 level experiment context scope st w)))
  = [(level ++ "-" ++ scope)%string;
     ((level ++ "-" ++ scope) ++ "-" ++ scope)%string].
Proof.
  intros experiment context A1 A2 P1 P2 NI.
  unfold apply_controls, get_context_controls, experiment, context.
  cbn [context_controls experiment_with activity_with e_controls a_controls
       is_empty andb filter map].
  rewrite A1, A2. unfold deepcopy. cbn [is_empty map fst snd].
  rewrite (apply_loop_call World Payload apply_python_control c1 [c2]) by exact P1.
  cbv zeta. fold context.
  destruct (apply_python_control (level ++ "-" ++ scope)%string c1 context st w)
    as [w1 r1] eqn:E1.
  assert (R1 : raised_interrupt
                 {| call_level := (level ++ "-" ++ scope)%string;
                    call_control := c1; call_state := st;
                    call_raised := r1 |} = false).
  { unfold raised_interrupt. cbn [call_raised].
    destruct r1 as [e|]; [|reflexivity]. apply NI. reflexivity. }
  rewrite R1. clear R1.
  rewrite (apply_loop_call World Payload apply_python_control c2 []) by exact P2.
  cbv zeta.
  destruct (apply_python_control ((level ++ "-" ++ scope) ++ "-" ++ scope)%string
              c2 context st w1) as [w2 r2].
  destruct (raised_interrupt
              {| call_level := ((level ++ "-" ++ scope) ++ "-" ++ scope)%string;
                 call_control := c2; call_state := st; call_raised := r2 |});
    reflexivity.
Qed.

Lemma level_tag_accumulates_witness :
  is_automatic dummy = true /\ is_automatic tracing_top = true
  /\ applies "pre" dummy = true /\ applies "pre" tracing_top = true
  /\ map call_level
       (snd (fst (apply_controls unit unit quiet_provider "activity"
                    (experiment_with [dummy; tracing_top] [])
                    (CtxActivity (activity_with "probe" []))
                    "pre" None tt)))
     = ["activity-pre"; "activity-pre-pre"].
Proof.
  repeat (split; [reflexivity|]).
  apply (level_tag_accumulates unit unit quiet_provider "activity" "pre"
           None tt dummy tracing_top); try reflexivity.
  intros e H. discriminate H.
Defined.

(** ** Validation, initialization and cleanup *)

(** C7, the code at an input where it departs from the claim: a [ref]
    to a control declared on another activity, and on no top-level
    entry, passes [validate_controls]; at that node the reference
    resolves to nothing.  A [ref] to a name declared nowhere is
    rejected. *)
Theorem nested_reference_passes_validation :
  let first := activity_with "first" [dummy] in
  let second := activity_with "second" [ref_control "dummy"] in
  let experiment := experiment_with [] [first; second] in
  validate_controls (fun _ => None) experiment = None
  /\ find (name_is "dummy") (e_controls experiment) = None
  /\ snd (get_context_controls experiment (CtxActivity second))
     = inl [ref_control "dummy"]
  /\ validate_controls (fun _ => None) (experiment_with [] [second])
     = Some InvalidControl.
Proof. repeat split. Qed.

Lemma existsb_eqb_In (n : string) (seen : list string) :
  existsb (String.eqb n) seen = true <-> In n seen.
Proof.
  rewrite existsb_exists. split.
  - intros (x & I & E). apply String.eqb_eq in E. now subst.
  - intro I. exists n. split; [exact I | apply String.eqb_refl].
Qed.

Section OncePerName.

Variable World : Type.
Variable hook : Control -> World -> World * option Exception.

(** Every control the loop calls [hook] on has a non-empty name that was
    not seen before the loop and that no earlier control of the list
    bears; the names of the controls called are pairwise distinct. *)
Lemma once_per_name_calls (controls : list Control) (seen : list string)
  (w : World) :
  let called := snd (fst (once_per_name World hook controls seen w)) in
  (forall c, In c called ->
     exists n before after,
       c_name c = Some n /\ n <> "" /\ ~ In n seen
       /\ controls = before ++ c :: after
       /\ forall c', In c' before -> c_name c' <> Some n)
  /\ NoDup (map c_name called).
Proof.
  revert seen w.
  induction controls as [|control rest IH]; intros seen w; cbn zeta.
  - simpl. split; [tauto | constructor].
  - assert (Skip : forall seen' w',
               (forall n, c_name control = Some n -> n = "" \/ In n seen') ->
               (forall n, In n seen -> In n seen') ->
               let called := snd (fst (once_per_name World hook rest seen' w')) in
               (forall c, In c called ->
                  exists n before after,
                    c_name c = Some n /\ n <> "" /\ ~ In n seen
                    /\ control :: rest = before ++ c :: after
                    /\ forall c', In c' before -> c_name c' <> Some n)
               /\ NoDup (map c_name called)).
    { intros seen' w' Hn Hs. cbn zeta.
      destruct (IH seen' w') as [P N]. split; [|exact N].
      intros c I. destruct (P c I) as (n & before & after & Cn & Ne & Ns & -> & B).
      exists n, (control :: before), after. repeat split; auto.
      intros c' [<- | I'] E; [|exact (B c' I' E)].
      destruct (Hn n E) as [-> | S]; [now apply Ne | now apply Ns]. }
    simpl. destruct (c_name control) as [name|] eqn:Cn.
    2:{ apply Skip; [discriminate | auto]. }
    destruct (String.eqb name "") eqn:Em; cbn [negb orb].
    { apply String.eqb_eq in Em. apply Skip; auto.
      intros n [= <-]. now left. }
    destruct (existsb (String.eqb name) seen) eqn:Ex.
    { apply existsb_eqb_In in Ex. apply Skip; auto.
      intros n [= <-]. now right. }
    assert (Fresh : ~ In name seen).
    { intro I. apply existsb_eqb_In in I. congruence. }
    assert (Ne : name <> "").
    { intro E. subst name. discriminate. }
    assert (Hn : forall n, Some name = Some n -> n = "" \/ In n (seen ++ [name])).
    { intros n [= <-]. right. apply in_or_app. right. simpl; auto. }
    assert (Hs : forall n, In n seen -> In n (seen ++ [name])).
    { intros n I. apply in_or_app. now left. }
    destruct (python_provider_declared control) as [[|]|e].
    + destruct (hook control w) as [w1 [e|]].
      * simpl. split.
        -- intros c [<- | []]. exists name, [], rest. repeat split; auto.
        -- repeat constructor. simpl. tauto.
      * destruct (IH (seen ++ [name]) w1) as [P N].
        destruct (once_per_name World hook rest (seen ++ [name]) w1)
          as [[w2 called] raised].
        cbn [fst snd] in *. split.
        -- intros c [<- | I].
           ++ exists name, [], rest. repeat split; auto.
           ++ destruct (P c I) as (n & before & after & Cn' & Ne' & Ns & -> & B).
              exists n, (control :: before), after.
              split; [exact Cn'|]. split; [exact Ne'|].
              split; [intro In'; apply Ns; apply in_or_app; now left|].
              split; [reflexivity|].
              intros c' [<- | I'] E; [|exact (B c' I' E)].
              rewrite Cn in E. injection E as <-.
              apply Ns. apply in_or_app. right. simpl; auto.
        -- simpl. constructor; [|exact N].
           rewrite Cn. intro I. apply in_map_iff in I.
           destruct I as (c & E & I).
           destruct (P c I) as (n & _ & _ & Cn' & _ & Ns & _).
           rewrite Cn' in E. injection E as ->.
           apply Ns. apply in_or_app. right. simpl; auto.
    + apply Skip; auto.
    + simpl. split; [tauto | constructor].
Qed.

End OncePerName.

Section FirstDeclaration.

Variable World : Type.
Variable hook : Control -> World -> World * option Exception.

(** When the loop returns normally, the first control of the list that
    bears a given non-empty name not seen before was called, provided
    its provider is of type ["python"]. *)
Lemma once_per_name_handles_first (before after : list Control) (d : Control)
  (n : string) (seen : list string) (w w' : World) (called : list Control) :
  once_per_name World hook (before ++ d :: after) seen w = (w', called, None) ->
  c_name d = Some n -> n <> "" -> ~ In n seen ->
  (forall x, In x before -> c_name x <> Some n) ->
  python_provider_declared d = inl true ->
  In d called.
Proof.
  intros H Nd Ne Ns Nb Pd. revert seen w called H Ns.
  induction before as [|x before IH]; intros seen w called H Ns.
  - cbn [app once_per_name str_truthy] in H. rewrite Nd in H.
    assert (Em : String.eqb n "" = false) by now apply String.eqb_neq.
    rewrite Em in H. cbn [negb orb] in H.
    destruct (existsb (String.eqb n) seen) eqn:Ex;
      [apply existsb_eqb_In in Ex; contradiction|].
    rewrite Pd in H.
    destruct (hook d w) as [w1 [e|]]; [discriminate|].
    destruct (once_per_name World hook after (seen ++ [n]) w1)
      as [[w2 called2] raised2].
    injection H as _ <- _. simpl; auto.
  - assert (Nb' : forall y, In y before -> c_name y <> Some n)
      by (intros y I; apply Nb; now right).
    cbn [app once_per_name str_truthy] in H.
    destruct (c_name x) as [m|] eqn:Cx; [|exact (IH Nb' _ _ _ H Ns)].
    destruct (String.eqb m "") eqn:Em; cbn [negb orb] in H;
      [exact (IH Nb' _ _ _ H Ns)|].
    destruct (existsb (String.eqb m) seen); [exact (IH Nb' _ _ _ H Ns)|].
    assert (Nm : m <> n).
    { intro E. subst m. apply (Nb x (or_introl eq_refl)). exact Cx. }
    assert (Ns' : ~ In n (seen ++ [m])).
    { intro I. apply in_app_or in I. destruct I as [I | [E | []]]; auto. }
    destruct (python_provider_declared x) as [[|]|e].
    + destruct (hook x w) as [w1 [e|]]; [discriminate|].
      destruct (once_per_name World hook (before ++ d :: after) (seen ++ [m]) w1)
        as [[w2 called2] raised2] eqn:O.
      injection H as -> <- ->. right. exact (IH Nb' _ _ _ O Ns').
    + exact (IH Nb' _ _ _ H Ns').
    + discriminate.
Qed.

End FirstDeclaration.

(** C8: however often a name is declared among the controls of the
    experiment, at the top level, on the hypothesis or on activities,
    [initialize_controls] calls [initialize_control] on at most one
    control of that name, and only on the first declared; when it
    returns normally, it has called it on the first declaration of
    every non-empty name, if that declaration has a python provider.
    [cleanup_controls] does the same with [cleanup_control]. *)
Theorem controls_handled_once_per_name (World : Type)
  (initialize_control cleanup_control :
     Control -> World -> World * option Exception)
  (experiment : Experiment) (w : World) :
  (once_first_wins experiment
     (snd (fst (initialize_controls World initialize_control experiment w)))
   /\ (snd (initialize_controls World initialize_control experiment w) = None ->
       first_declarations_handled experiment
         (snd (fst (initialize_controls World initialize_control
                      experiment w)))))
  /\ (once_first_wins experiment
        (snd (fst (cleanup_controls World cleanup_control experiment w)))
      /\ (snd (cleanup_controls World cleanup_control experiment w) = None ->
          first_declarations_handled experiment
            (snd (fst (cleanup_controls World cleanup_control
                         experiment w))))).
Proof.
  assert (G : forall hook,
             once_first_wins experiment
               (snd (fst (once_per_name World hook (get_controls experiment)
                            [] w)))
             /\ (snd (once_per_name World hook (get_controls experiment) [] w)
                 = None ->
                 first_declarations_handled experiment
                   (snd (fst (once_per_name World hook
                                (get_controls experiment) [] w))))).
  { intro hook. split.
    - unfold once_first_wins.
      destruct (once_per_name_calls World hook (get_controls experiment) [] w)
        as [P N].
      split; [exact N|]. intros c I.
      destruct (P c I) as (n & before & after & Cn & _ & _ & E & B).
      exists before, after. rewrite Cn. auto.
    - intros R before d after n E Nd Ne Nb Pd.
      destruct (once_per_name World hook (get_controls experiment) [] w)
        as [[w' called] raised] eqn:O.
      cbn [fst snd] in *. subst raised. rewrite E in O.
      exact (once_per_name_handles_first World hook before after d n [] w w'
               called O Nd Ne (fun F => F) Nb Pd). }
  unfold initialize_controls, cleanup_controls. split; apply G.
Qed.

Lemma controls_handled_once_per_name_witness :
  let experiment :=
    experiment_with [tracing_top; dummy]
      [activity_with "probe" [tracing_local; dummy; metrics]] in
  initialize_controls nat counting_hook experiment 0
  = (3, [tracing_top; dummy; metrics], None)
  /\ once_first_wins experiment [tracing_top; dummy; metrics]
  /\ (@None Exception = None ->
      first_declarations_handled experiment [tracing_top; dummy; metrics]).
Proof.
  intro experiment. split; [reflexivity|].
  exact (proj1 (controls_handled_once_per_name nat counting_hook counting_hook
                  experiment 0)).
Defined.

(** ** The experiment as its own context

    With [context] the experiment, the loops of [get_context_controls]
    iterate the list they append to.  They still compute [merge_loop] on
    the list as it stood at the call: the scan for a name stops at or
    before the entry's own position, and the entries appended are copies
    of earlier ones. *)

Lemma append_referenced_passes (r : string) (l acc : list Control) :
  (forall x, In x l -> exists n, c_name x = Some n /\ String.eqb r n = false) ->
  append_referenced r l acc = (acc, None).
Proof.
  induction l as [|t l IH]; intro H; simpl; [reflexivity|].
  destruct (H t (or_introl eq_refl)) as (n & -> & ->).
  apply IH. intros x I. apply H. now right.
Qed.

Lemma append_referenced_copies (r : string) (l added acc : list Control) :
  (forall x, In x added ->
     In x l \/ exists n, c_name x = Some n /\ String.eqb r n = false) ->
  append_referenced r (l ++ added) acc = append_referenced r l acc.
Proof.
  revert added. induction l as [|t l IH]; intros added H; simpl.
  - apply append_referenced_passes. intros x I.
    destruct (H x I) as [[] | E]. exact E.
  - destruct (c_name t) as [n|] eqn:N; [|reflexivity].
    destruct (String.eqb r n) eqn:E; [reflexivity|].
    apply IH. intros x I. destruct (H x I) as [[<- | I'] | E']; eauto.
Qed.

Lemma append_inherited_live_agrees (c : Control) (l l0 added : list Control)
  (fuel : nat) :
  In c l ->
  List.length l < fuel ->
  append_inherited_live fuel c (List.length l0) (l0 ++ l ++ added)
  = Some (append_inherited c l (l0 ++ l ++ added)).
Proof.
  revert l0 added fuel.
  induction l as [|t l IH]; intros l0 added fuel I F; [destruct I|].
  destruct fuel as [|fuel]; [inversion F|]. simpl in F.
  cbn [append_inherited_live append_inherited].
  rewrite nth_error_app2, Nat.sub_diag by lia. cbn [nth_error app].
  destruct (opt_eqb (c_name c) (c_name t)) eqn:E; [reflexivity|].
  assert (I' : In c l).
  { destruct I as [<- | I]; [|exact I]. rewrite opt_eqb_refl in E. discriminate. }
  assert (S1 : S (List.length l0) = List.length (l0 ++ [t]))
    by (rewrite length_app; simpl; lia).
  assert (Q1 : (l0 ++ t :: l ++ added) ++ [deepcopy t]
               = (l0 ++ [t]) ++ l ++ (added ++ [deepcopy t]))
    by (rewrite <- !app_assoc; simpl; rewrite <- ?app_assoc; reflexivity).
  assert (Q2 : l0 ++ t :: l ++ added = (l0 ++ [t]) ++ l ++ added)
    by (rewrite <- !app_assoc; simpl; rewrite <- ?app_assoc; reflexivity).
  destruct (is_automatic t).
  - rewrite Q1, S1. apply IH; [exact I' | lia].
  - rewrite Q2, S1. apply IH; [exact I' | lia].
Qed.

Lemma merge_loop_live_from (T snapshot before added : list Control) (fuel : nat) :
  T = before ++ snapshot ->
  incl added T ->
  List.length T < fuel ->
  merge_loop_live fuel snapshot (T ++ added)
  = Some (merge_loop snapshot T (T ++ added)).
Proof.
  revert before added.
  induction snapshot as [|c rest IH]; intros before added E Inc F;
    [reflexivity|].
  assert (E' : T = (before ++ [c]) ++ rest)
    by (rewrite E; now rewrite <- app_assoc).
  cbn [merge_loop_live merge_loop].
  destruct (c_ref c) as [r|].
  - rewrite append_referenced_copies
      by (intros x I; left; now apply Inc).
    destruct (append_referenced r T (T ++ added)) as [acc [e|]] eqn:R;
      [reflexivity|].
    apply append_referenced_returns in R. subst acc.
    rewrite <- app_assoc. apply (IH (before ++ [c])); [exact E'| |exact F].
    intros x I. apply in_app_or in I. destruct I as [I|I]; [now apply Inc|].
    now apply in_referenced in I.
  - pose proof (append_inherited_live_agrees c T [] added fuel) as L.
    cbn [List.length app] in L. rewrite L; [|rewrite E; apply in_or_app; right; simpl; auto | exact F].
    rewrite append_inherited_app, <- app_assoc.
    apply (IH (before ++ [c])); [exact E'| |exact F].
    intros x I. apply in_app_or in I. destruct I as [I|I]; [now apply Inc|].
    now apply in_inherited in I.
Qed.

(** X7: with enough fuel the loops run on the growing list return, and
    return what [merge_loop] computes on the list as it was. *)
Theorem merge_loop_live_agrees (T : list Control) (fuel : nat) :
  List.length T < fuel ->
  merge_loop_live fuel T T = Some (merge_loop T T T).
Proof.
  intro F. pose proof (merge_loop_live_from T T [] [] fuel eq_refl) as H.
  rewrite app_nil_r in H. apply H; [intros x [] | exact F].
Qed.

(** * Further properties of the module *)

(** ** validate_controls *)

Section Validation.

Variable validate_python_control : Control -> option Exception.

Lemma collect_references_names (controls : list Control) (names : list string) :
  collect_references controls = inl names ->
  (forall c, In c controls -> c_ref c = None -> c_name c <> None)
  /\ (forall n, In n names <->
        exists d, In d controls /\ c_ref d = None /\ c_name d = Some n).
Proof.
  revert names.
  induction controls as [|c rest IH]; intros names; simpl.
  - intros [= <-]. split; [tauto|]. intro n. split; [intros [] | intros (d & [] & _)].
  - destruct (c_ref c) as [r|] eqn:R.
    + intro H. destruct (IH names H) as [N M]. split.
      * intros d [<- | I] Rd; [congruence | now apply N].
      * intro n. rewrite M. split.
        -- intros (d & I & H'). exists d. auto.
        -- intros (d & [<- | I] & Rd & Nd); [congruence | exists d; auto].
    + destruct (c_name c) as [n0|] eqn:N0; [|discriminate].
      destruct (collect_references rest) as [names'|e]; [|discriminate].
      intros [= <-]. destruct (IH names' eq_refl) as [N M]. split.
      * intros d [<- | I] Rd; [congruence | now apply N].
      * intro n. simpl. rewrite M. split.
        -- intros [<- | (d & I & H')]; [exists c; auto | exists d; auto].
        -- intros (d & [<- | I] & Rd & Nd);
             [left; congruence | right; exists d; auto].
Qed.

Lemma collect_references_raises (controls : list Control) (e : Exception) :
  collect_references controls = inr e ->
  e = KeyError "name"
  /\ exists c, In c controls /\ c_ref c = None /\ c_name c = None.
Proof.
  induction controls as [|c rest IH]; simpl; [discriminate|].
  destruct (c_ref c) as [r|] eqn:R.
  - intro H. destruct (IH H) as (-> & d & I & H'). split; [reflexivity|].
    exists d. auto.
  - destruct (c_name c) as [n0|] eqn:N0.
    + destruct (collect_references rest) as [names'|e']; [discriminate|].
      intros [= <-]. destruct (IH eq_refl) as (-> & d & I & H').
      split; [reflexivity|]. exists d. auto.
    + intros [= <-]. split; [reflexivity|]. exists c. auto.
Qed.

Lemma check_references_outcome (controls : list Control) (references : list string) :
  (check_references controls references = None
   /\ forall c r, In c controls -> c_ref c = Some r -> In r references)
  \/ (check_references controls references = Some InvalidControl
      /\ exists c r, In c controls /\ c_ref c = Some r /\ ~ In r references).
Proof.
  induction controls as [|c rest IH]; simpl.
  - left. split; [reflexivity|]. intros c r [].
  - destruct (c_ref c) as [r|] eqn:R.
    + destruct (existsb (String.eqb r) references) eqn:E; cbn [negb].
      * apply existsb_eqb_In in E.
        destruct IH as [[H A] | (H & d & r' & I & Rd & N)].
        -- left. split; [exact H|].
           intros d r' [<- | I] Rd; [congruence | eapply A; eauto].
        -- right. split; [exact H|]. exists d, r'. auto.
      * right. split; [reflexivity|]. exists c, r. repeat split; auto.
        intro I. apply existsb_eqb_In in I. congruence.
    + destruct IH as [[H A] | (H & d & r' & I & Rd & N)].
      * left. split; [exact H|].
        intros d r' [<- | I] Rd; [congruence | eapply A; eauto].
      * right. split; [exact H|]. exists d, r'. auto.
Qed.

Lemma validate_providers_none (controls : list Control) :
  validate_providers validate_python_control controls = None <->
  forall c, In c controls -> is_python c = true ->
            validate_python_control c = None.
Proof.
  induction controls as [|c rest IH]; simpl.
  - split; [intros _ c [] | reflexivity].
  - destruct (is_python c) eqn:P.
    + destruct (validate_python_control c) as [e|] eqn:V.
      * split; [discriminate|]. intro H.
        rewrite (H c (or_introl eq_refl) P) in V. discriminate.
      * rewrite IH. split.
        -- intros H d [<- | I] Pd; [exact V | now apply H].
        -- intros H d I Pd. apply H; auto.
    + rewrite IH. split.
      * intros H d [<- | I] Pd; [congruence | now apply H].
      * intros H d I Pd. apply H; auto.
Qed.

(** X1: [validate_controls] returns normally exactly when every control
    without [ref] has a name, every [ref] is the name of some control
    without [ref] declared anywhere in the experiment, and
    [validate_python_control] accepts every control whose provider type
    is ["python"]. *)
Theorem validate_controls_accepts_iff (experiment : Experiment) :
  validate_controls validate_python_control experiment = None <->
  (forall c, In c (get_controls experiment) -> c_ref c = None ->
             c_name c <> None)
  /\ (forall c r, In c (get_controls experiment) -> c_ref c = Some r ->
        exists d, In d (get_controls experiment)
                  /\ c_ref d = None /\ c_name d = Some r)
  /\ (forall c, In c (get_controls experiment) -> is_python c = true ->
                validate_python_control c = None).
Proof.
  unfold validate_controls.
  destruct (collect_references (get_controls experiment)) as [names|e] eqn:C.
  - destruct (collect_references_names _ _ C) as [N M].
    destruct (check_references_outcome (get_controls experiment) names)
      as [[H A] | (H & d & r & I & Rd & Nr)]; rewrite H.
    + rewrite validate_providers_none. split.
      * intro V. repeat split; auto.
        intros c r I Rc. apply M. eapply A; eauto.
      * intros (_ & _ & V). exact V.
    + split; [discriminate|]. intros (_ & A & _).
      exfalso. apply Nr. apply M. eapply A; eauto.
  - destruct (collect_references_raises _ _ C) as (-> & c & I & Rc & Nc).
    split; [discriminate|]. intros (N & _). exfalso. exact (N c I Rc Nc).
Qed.

(** X2: the order of the checks: a control without [ref] and without name
    makes [validate_controls] raise [KeyError], whatever else is wrong;
    failing that, a [ref] to a name no control declares makes it raise
    [InvalidControl] before any provider is validated. *)
Theorem validate_controls_error_order (experiment : Experiment) :
  ((exists c, In c (get_controls experiment)
              /\ c_ref c = None /\ c_name c = None) ->
   validate_controls validate_python_control experiment
   = Some (KeyError "name"))
  /\ ((forall c, In c (get_controls experiment) -> c_ref c = None ->
                 c_name c <> None) ->
      (exists c r, In c (get_controls experiment) /\ c_ref c = Some r
                   /\ forall d, In d (get_controls experiment) ->
                                c_ref d = None -> c_name d <> Some r) ->
      validate_controls validate_python_control experiment
      = Some InvalidControl).
Proof.
  unfold validate_controls. split.
  - intros (c & I & Rc & Nc).
    destruct (collect_references (get_controls experiment)) as [names|e] eqn:C.
    + destruct (collect_references_names _ _ C) as [N _].
      exfalso. exact (N c I Rc Nc).
    + now destruct (collect_references_raises _ _ C) as (-> & _).
  - intros N (c & r & I & Rc & Un).
    destruct (collect_references (get_controls experiment)) as [names|e] eqn:C.
    + destruct (collect_references_names _ _ C) as [_ M].
      destruct (check_references_outcome (get_controls experiment) names)
        as [[H A] | (H & _)]; rewrite H; [|reflexivity].
      exfalso. pose proof (A c r I Rc) as Ir. apply M in Ir.
      destruct Ir as (d & Id & Rd & Nd). exact (Un d Id Rd Nd).
    + destruct (collect_references_raises _ _ C) as (_ & d & Id & Rd & Nd).
      exfalso. exact (N d Id Rd Nd).
Qed.

End Validation.

Lemma validate_controls_error_order_witness :
  validate_controls (fun _ => Some InvalidActivity)
    (experiment_with [unscoped; ref_control "missing"]
       [activity_with "probe" [anonymous]])
  = Some (KeyError "name")
  /\ validate_controls (fun _ => Some InvalidActivity)
       (experiment_with [unscoped] [activity_with "probe" [ref_control "missing"]])
     = Some InvalidControl.
Proof.
  split.
  - apply (validate_controls_error_order (fun _ => Some InvalidActivity)).
    exists anonymous. split; [|split; reflexivity]. simpl. auto.
  - apply (validate_controls_error_order (fun _ => Some InvalidActivity)).
    + intros c [<- | [<- | []]]; discriminate.
    + exists (ref_control "missing"), "missing". split; [simpl; auto|].
      split; [reflexivity|].
      intros d [<- | [<- | []]]; discriminate.
Defined.

(** ** get_context_controls: what it appends and when it raises *)



Lemma context_controls_with_controls (experiment : Experiment)
  (context : ContextNode) (l : list Control) :
  context_controls (fst (with_controls experiment context l))
    (snd (with_controls experiment context l)) = l.
Proof. destruct context; reflexivity. Qed.

(** The two ways the call can go: the early returns leave everything as
    it is; the merging branch, taken when the node has local entries,
    stores the list built by [merge_loop] in the node. *)
Lemma get_context_controls_branches (experiment : Experiment)
  (context : ContextNode) :
  (fst (get_context_controls experiment context) = (experiment, context)
   /\ context_controls experiment context = [])
  \/ (exists acc raised,
         merge_loop (context_controls experiment context)
           (e_controls experiment) (context_controls experiment context)
         = (acc, raised)
         /\ context_controls experiment context <> []
         /\ fst (get_context_controls experiment context)
            = with_controls experiment context acc
         /\ snd (get_context_controls experiment context)
            = match raised with
              | None => inl acc
              | Some e => inr e
              end).
Proof.
  unfold get_context_controls.
  destruct (context_controls experiment context) as [|c L] eqn:EL.
  - left. cbn [is_empty andb].
    destruct (is_empty (e_controls experiment)); auto.
  - right. cbn [is_empty andb].
    destruct (merge_loop (c :: L) (e_controls experiment) (c :: L))
      as [acc raised].
    exists acc, raised. repeat split; try discriminate;
      destruct raised; reflexivity.
Qed.

(** The list held by the node after a call that returned from the
    merging branch is the list returned. *)
Lemma node_list_after_call (experiment : Experiment) (context : ContextNode)
  (res : list Control) :
  snd (get_context_controls experiment context) = inl res ->
  context_controls experiment context <> [] ->
  context_controls (fst (fst (get_context_controls experiment context)))
    (snd (fst (get_context_controls experiment context))) = res.
Proof.
  intros R NL.
  destruct (get_context_controls_branches experiment context)
    as [[_ E] | (acc & raised & _ & _ & F & S)]; [contradiction|].
  rewrite F, context_controls_with_controls. rewrite S in R.
  destruct raised; congruence.
Qed.

(** A call on a node other than the experiment leaves the top-level
    list as it is. *)
Lemma top_level_after_call (experiment : Experiment) (context : ContextNode) :
  context <> CtxExperiment ->
  e_controls (fst (fst (get_context_controls experiment context)))
  = e_controls experiment.
Proof.
  intro NE.
  destruct (get_context_controls_branches experiment context)
    as [[F _] | (acc & raised & _ & _ & F & _)]; rewrite F;
    [reflexivity|].
  destruct context; [congruence | reflexivity | reflexivity].
Qed.


Lemma append_referenced_raises_iff (r : string) (T acc : list Control) :
  (exists e, snd (append_referenced r T acc) = Some e) <->
  exists T1 t T2,
    T = T1 ++ t :: T2 /\ c_name t = None
    /\ forall x, In x T1 -> name_is r x = false.
Proof.
  induction T as [|t T IH]; simpl.
  - split; [intros (e & H); discriminate|].
    intros (T1 & t & T2 & E & _). destruct T1; discriminate.
  - destruct (c_name t) as [n|] eqn:N.
    + destruct (String.eqb r n) eqn:E.
      * split; [intros (e & H); discriminate|].
        intros (T1 & t' & T2 & ET & Nt & F). destruct T1 as [|x T1].
        -- injection ET as <- _. congruence.
        -- injection ET as <- _.
           pose proof (F t (or_introl eq_refl)) as Fx.
           unfold name_is in Fx. rewrite N in Fx. simpl in Fx. congruence.
      * rewrite IH. split.
        -- intros (T1 & t' & T2 & -> & Nt & F).
           exists (t :: T1), t', T2. repeat split; auto.
           intros x [<- | I]; [|now apply F].
           unfold name_is. rewrite N. exact E.
        -- intros (T1 & t' & T2 & ET & Nt & F). destruct T1 as [|x T1].
           ++ injection ET as <- _. congruence.
           ++ injection ET as <- ->. exists T1, t', T2. repeat split; auto.
              intros y I. apply F. now right.
    + split; [|intros _; eexists; reflexivity].
      intros _. exists [], t, T. repeat split; auto. intros x [].
Qed.

Lemma append_referenced_raises_key_error (r : string) (T acc acc' : list Control)
  (e : Exception) :
  append_referenced r T acc = (acc', Some e) -> e = KeyError "name".
Proof.
  induction T as [|t T IH]; simpl; [discriminate|].
  destruct (c_name t) as [n|]; [|now intros [= _ <-]].
  destruct (String.eqb r n); [discriminate | exact IH].
Qed.

Lemma merge_loop_raises_iff (snapshot T acc : list Control) :
  (exists e, snd (merge_loop snapshot T acc) = Some e) <->
  exists c r, In c snapshot /\ c_ref c = Some r
              /\ exists e, snd (append_referenced r T []) = Some e.
Proof.
  assert (Acc : forall r a, snd (append_referenced r T a)
                            = snd (append_referenced r T [])).
  { intros r a. induction T as [|t T' IH]; simpl; [reflexivity|].
    destruct (c_name t); [|reflexivity].
    destruct (String.eqb r s); [reflexivity | exact IH]. }
  revert acc.
  induction snapshot as [|c rest IH]; intros acc; simpl.
  - split; [intros (e & H); discriminate | intros (c & r & [] & _)].
  - destruct (c_ref c) as [r|] eqn:R.
    + pose proof (Acc r acc) as A.
      destruct (append_referenced r T acc) as [acc1 [e|]]; cbn [snd] in *.
      * split; [|intros _; eexists; reflexivity].
        intros _. exists c, r. repeat split; auto. exists e. now symmetry.
      * rewrite IH. split.
        -- intros (d & r' & I & H). exists d, r'. split; [now right | exact H].
        -- intros (d & r' & [<- | I] & Rd & (e & H)).
           ++ rewrite R in Rd. injection Rd as <-. congruence.
           ++ exists d, r'. repeat split; auto. exists e. exact H.
    + rewrite IH. split.
      * intros (d & r' & I & H). exists d, r'. split; [now right | exact H].
      * intros (d & r' & [<- | I] & Rd & H); [congruence|].
        exists d, r'. auto.
Qed.

(** X4: [get_context_controls] raises exactly when some local entry carries
    a [ref] and the scan of the top-level controls for it meets an entry
    without ["name"] before any entry of that name; the exception is
    then a [KeyError] for ["name"]. *)
Theorem get_context_controls_raises_iff (experiment : Experiment)
  (context : ContextNode) :
  ((exists e, snd (get_context_controls experiment context) = inr e) <->
   exists c r T1 t T2,
     In c (context_controls experiment context) /\ c_ref c = Some r
     /\ e_controls experiment = T1 ++ t :: T2 /\ c_name t = None
     /\ forall x, In x T1 -> name_is r x = false)
  /\ (forall e, snd (get_context_controls experiment context) = inr e ->
                e = KeyError "name").
Proof.
  unfold get_context_controls.
  destruct (context_controls experiment context) as [|c0 L] eqn:EL.
  - cbn [is_empty andb].
    destruct (is_empty (e_controls experiment)); cbn [fst snd]; split;
      try discriminate;
      (split; [intros (e & H); discriminate
              | intros (c & r & T1 & t & T2 & [] & _)]).
  - cbn [is_empty andb].
    pose proof (merge_loop_raises_iff (c0 :: L) (e_controls experiment) (c0 :: L))
      as MI.
    destruct (merge_loop (c0 :: L) (e_controls experiment) (c0 :: L))
      as [acc [e|]] eqn:M; cbn [snd] in *.
    + split.
      * split; [|intros _; eexists; reflexivity].
        intros _. destruct (proj1 MI (ex_intro _ e eq_refl))
          as (c & r & I & Rc & H).
        apply append_referenced_raises_iff in H.
        destruct H as (T1 & t & T2 & ET & Nt & F).
        exists c, r, T1, t, T2. auto.
      * intros e' [= <-].
        assert (G : forall snapshot acc0 acc1 e0,
                   merge_loop snapshot (e_controls experiment) acc0
                   = (acc1, Some e0) -> e0 = KeyError "name").
        { induction snapshot as [|c rest IH]; intros acc0 acc1 e0; simpl;
            [discriminate|].
          destruct (c_ref c) as [r|]; [|apply IH].
          destruct (append_referenced r (e_controls experiment) acc0)
            as [acc2 [e2|]] eqn:R.
          - intros [= _ <-]. exact (append_referenced_raises_key_error _ _ _ _ _ R).
          - apply IH. }
        exact (G _ _ _ _ M).
    + split; [|discriminate]. split; [intros (e & H); discriminate|].
      intros (c & r & T1 & t & T2 & I & Rc & ET & Nt & F).
      assert (H : exists e, snd (append_referenced r (e_controls experiment) [])
                            = Some e).
      { apply append_referenced_raises_iff. exists T1, t, T2. auto. }
      destruct (proj2 MI (ex_intro _ c (ex_intro _ r (conj I (conj Rc H)))))
        as (e & He). discriminate.
Qed.


Lemma get_context_controls_raises_iff_witness :
  (exists e,
      snd (get_context_controls (experiment_with [dummy; anonymous] [])
             (CtxActivity (activity_with "probe" [ref_control "missing"])))
      = inr e)
  /\ ~ (exists e,
           snd (get_context_controls (experiment_with [dummy; anonymous] [])
                  (CtxActivity (activity_with "probe" [ref_control "dummy"])))
           = inr e).
Proof.
  split.
  - apply (proj1 (get_context_controls_raises_iff
                    (experiment_with [dummy; anonymous] [])
                    (CtxActivity (activity_with "probe" [ref_control "missing"])))).
    exists (ref_control "missing"), "missing", [dummy], anonymous, [].
    repeat split; simpl; auto.
    intros x [<- | []]. reflexivity.
  - intros (e & H). discriminate H.
Defined.

(** X5: without top-level controls the function returns the local entries as
    they are, appends nothing and cannot raise. *)
Theorem get_context_controls_without_top_level (experiment : Experiment)
  (context : ContextNode) :
  e_controls experiment = [] ->
  get_context_controls experiment context
  = ((experiment, context), inl (context_controls experiment context)).
Proof.
  intro ET.
  assert (M : forall snapshot acc,
             merge_loop snapshot [] acc = (acc, None)).
  { induction snapshot as [|c rest IH]; intro acc; simpl; [reflexivity|].
    destruct (c_ref c); apply IH. }
  unfold get_context_controls. rewrite ET.
  destruct (context_controls experiment context) as [|c L] eqn:EL;
    [reflexivity|].
  cbn [is_empty andb]. rewrite M.
  destruct context as [|a|h]; simpl in EL.
  - congruence.
  - destruct a as [n l]. simpl in *. now rewrite EL.
  - destruct h as [p l]. simpl in *. now rewrite EL.
Qed.

Lemma get_context_controls_without_top_level_witness :
  get_context_controls (experiment_with [] [])
    (CtxActivity (activity_with "probe" [metrics; ref_control "dummy"]))
  = ((experiment_with [] [],
      CtxActivity (activity_with "probe" [metrics; ref_control "dummy"])),
     inl [metrics; ref_control "dummy"]).
Proof.
  apply (get_context_controls_without_top_level (experiment_with [] [])
           (CtxActivity (activity_with "probe" [metrics; ref_control "dummy"]))).
  reflexivity.
Defined.

Lemma inherited_before_name (c a : Control) (before rest : list Control) :
  In a before ->
  is_automatic a = true ->
  (forall x, In x before -> c_name x <> c_name c) ->
  In a (inherited c (before ++ rest)).
Proof.
  unfold inherited.
  induction before as [|t before IH]; intros I A N; [destruct I|].
  simpl. destruct (opt_eqb (c_name c) (c_name t)) eqn:E.
  - apply opt_eqb_eq in E. exfalso. apply (N t (or_introl eq_refl)). now symmetry.
  - destruct I as [<- | I].
    + rewrite A, append_inherited_app. simpl. auto.
    + destruct (is_automatic t); [rewrite append_inherited_app; right|];
        apply IH; auto; intros x Ix; apply N; now right.
Qed.

Lemma context_stays_experiment (experiment : Experiment) :
  snd (fst (get_context_controls experiment CtxExperiment)) = CtxExperiment.
Proof.
  unfold get_context_controls.
  destruct (is_empty (context_controls experiment CtxExperiment)
            && is_empty (e_controls experiment)); [reflexivity|].
  destruct (is_empty (context_controls experiment CtxExperiment));
    [reflexivity|].
  destruct (merge_loop _ _ _) as [acc [e|]]; reflexivity.
Qed.

(** X6: with the experiment as its own context, an automatic top-level
    control declared before another top-level control [b] (without
    [ref], its name borne by no earlier entry) is appended once more:
    the list returned, which is also what [experiment["controls"]] holds
    afterwards, has it both at its place and among the entries added. *)
Theorem experiment_context_repeats_earlier_controls (experiment : Experiment)
  (l1 l2 l3 : list Control) (a b : Control) (res : list Control) :
  e_controls experiment = l1 ++ a :: l2 ++ b :: l3 ->
  is_automatic a = true ->
  c_ref b = None ->
  (forall x, In x (l1 ++ a :: l2) -> c_name x <> c_name b) ->
  snd (get_context_controls experiment CtxExperiment) = inl res ->
  (exists added, res = e_controls experiment ++ added /\ In a added)
  /\ e_controls (fst (fst (get_context_controls experiment CtxExperiment))) = res.
Proof.
  intros ET A Rb N R. split.
  - pose proof (get_context_controls_merged experiment CtxExperiment res) as M.
    cbn [context_controls] in M. rewrite M; [|rewrite ET; now destruct l1|exact R].
    eexists. split; [reflexivity|].
    apply in_flat_map. exists b. split.
    + rewrite ET. apply in_or_app. right. right. apply in_or_app. right.
      simpl; auto.
    + unfold appended_by. rewrite Rb, ET.
      replace (l1 ++ a :: l2 ++ b :: l3) with ((l1 ++ a :: l2) ++ b :: l3)
        by (now rewrite <- app_assoc).
      apply inherited_before_name; auto.
      apply in_or_app. right. simpl; auto.
  - pose proof (node_list_after_call experiment CtxExperiment res R) as H.
    rewrite context_stays_experiment in H.
    cbn [context_controls] in H. apply H.
    rewrite ET. now destruct l1.
Qed.

Lemma experiment_context_repeats_earlier_controls_witness :
  snd (get_context_controls (experiment_with [dummy; metrics] []) CtxExperiment)
  = inl [dummy; metrics; dummy]
  /\ (exists added,
        [dummy; metrics; dummy] = [dummy; metrics] ++ added /\ In dummy added)
  /\ e_controls (fst (fst (get_context_controls
                             (experiment_with [dummy; metrics] []) CtxExperiment)))
     = [dummy; metrics; dummy].
Proof.
  split; [reflexivity|].
  apply (experiment_context_repeats_earlier_controls
           (experiment_with [dummy; metrics] []) [] [] [] dummy metrics
           [dummy; metrics; dummy]); try reflexivity.
  intros x [<- | []]. discriminate.
Defined.

Lemma merge_loop_live_agrees_witness :
  merge_loop_live 3 [dummy; metrics] [dummy; metrics]
  = Some ([dummy; metrics; dummy], None).
Proof.
  apply (merge_loop_live_agrees [dummy; metrics] 3). simpl. lia.
Defined.

(** ** apply_controls and the context manager: arguments of the calls *)

Lemma level_tag_shift (level scope : string) (n : nat) :
  level_tag (level ++ "-" ++ scope)%string scope n
  = level_tag level scope (S n).
Proof.
  induction n as [|n IH]; [reflexivity|].
  cbn [level_tag]. rewrite IH. reflexivity.
Qed.

Section CallArguments.

Variable World : Type.
Variable Payload : Type.
Variable apply_python_control :
  string -> Control -> ContextNode -> option Payload -> World ->
  World * option Exception.

Lemma apply_loop_arguments (controls : list Control) (level scope : string)
  (context : ContextNode) (st : option Payload) (w : World)
  (i : nat) (k : Call Payload) :
  nth_error
    (snd (fst (apply_loop World Payload apply_python_control
                 controls level scope context st w))) i = Some k ->
  call_level k = level_tag level scope (S i)
  /\ call_state k = st
  /\ applies scope (call_control k) = true.
Proof.
  revert level w i.
  induction controls as [|control rest IH]; intros level w i.
  - simpl. destruct i; discriminate.
  - destruct (applies scope control) eqn:A.
    + rewrite apply_loop_call by exact A. cbv zeta.
      destruct (apply_python_control (level ++ "-" ++ scope)%string control
                  context st w) as [w1 r1].
      destruct (raised_interrupt _).
      * cbn [fst snd]. destruct i as [|i]; simpl.
        -- intros [= <-]. auto.
        -- destruct i; discriminate.
      * pose proof (IH (level ++ "-" ++ scope)%string w1) as IH'.
        destruct (apply_loop World Payload apply_python_control rest
                    (level ++ "-" ++ scope)%string scope context st w1)
          as [[w2 calls2] raised2].
        cbn [fst snd] in *. destruct i as [|i]; simpl.
        -- intros [= <-]. auto.
        -- intro H. destruct (IH' i H) as (L & S' & A').
           rewrite level_tag_shift in L. auto.
    + rewrite apply_loop_skip by exact A. apply IH.
Qed.

(** X9: the [n]-th provider call made by [apply_controls] (counting from 0)
    gets as level tag the [level] argument followed by [n + 1] times
    ["-<scope>"], gets the [state] argument as it was passed, and is
    made on a control that passes the scope and provider tests. *)
Theorem apply_controls_call_arguments (level : string)
  (experiment : Experiment) (context : ContextNode) (scope : string)
  (st : option Payload) (w : World) (n : nat) (k : Call Payload) :
  nth_error
    (snd (fst (apply_controls World Payload apply_python_control
                 level experiment context scope st w))) n = Some k ->
  call_level k = level_tag level scope (S n)
  /\ call_state k = st
  /\ applies scope (call_control k) = true.
Proof.
  unfold apply_controls.
  destruct (get_context_controls experiment context) as [tree [l|e]].
  - destruct (is_empty l).
    + cbn [fst snd]. destruct n; discriminate.
    + pose proof (apply_loop_arguments l level scope (snd tree) st w n k) as H.
      destruct (apply_loop World Payload apply_python_control l level scope
                  (snd tree) st w) as [[w1 calls1] raised1].
      exact H.
  - cbn [fst snd]. destruct n; discriminate.
Qed.

Lemma apply_controls_calls (level : string)
  (experiment : Experiment) (context : ContextNode) (scope : string)
  (st : option Payload) (w : World) (k : Call Payload) :
  In k (snd (fst (apply_controls World Payload apply_python_control
                    level experiment context scope st w))) ->
  call_state k = st /\ applies scope (call_control k) = true.
Proof.
  intro I. apply In_nth_error in I. destruct I as [n H].
  unfold apply_controls in H.
  destruct (get_context_controls experiment context) as [tree [l|e]].
  - destruct (is_empty l).
    + cbn [fst snd] in H. destruct n; discriminate.
    + pose proof (apply_loop_arguments l level scope (snd tree) st w n k) as A.
      destruct (apply_loop World Payload apply_python_control l level scope
                  (snd tree) st w) as [[w1 calls1] raised1].
      apply A in H. tauto.
  - cbn [fst snd] in H. destruct n; discriminate.
Qed.

(** X10: when the pre-scope application returns normally, [controls] runs the
    block, then applies the post-scope controls whether the block raised
    or not; the calls made on entry get no state, those made on exit get
    the state the block recorded with [with_state]; the exception that
    leaves is the one of the exit application if it raised, else the
    one of the block. *)
Theorem controls_runs_block_then_end (level : string)
  (experiment : Experiment) (context : ContextNode)
  (body : ControlInstance Payload -> World ->
          ControlInstance Payload * World * option Exception)
  (w w1 w' : World) (tree1 : Experiment * ContextNode)
  (calls1 : list (Call Payload)) (c' : ControlInstance Payload)
  (pending : option Exception) :
  apply_controls World Payload apply_python_control
    level experiment context "pre" None w = (tree1, w1, calls1, None) ->
  body {| state := None |} w1 = (c', w', pending) ->
  exists tree2 w2 calls2 raised2,
    apply_controls World Payload apply_python_control
      level (fst tree1) (snd tree1) "post" (state Payload c') w'
    = (tree2, w2, calls2, raised2)
    /\ controls World Payload apply_python_control
         level experiment context body w
       = (tree2, w2, calls1 ++ calls2,
          match raised2 with
          | Some e => Some e
          | None => pending
          end)
    /\ Forall (fun k => call_state k = None) calls1
    /\ Forall (fun k => call_state k = state Payload c') calls2.
Proof.
  intros B Bd.
  pose proof (fun k => apply_controls_calls level experiment context "pre"
                         None w k) as S1.
  pose proof (fun k => apply_controls_calls level (fst tree1) (snd tree1)
                         "post" (state Payload c') w' k) as S2.
  unfold controls, begin, end_. rewrite B in *. rewrite Bd.
  destruct (apply_controls World Payload apply_python_control level
              (fst tree1) (snd tree1) "post" (state Payload c') w')
    as [[[tree2 w2] calls2] raised2].
  cbn [fst snd] in *.
  exists tree2, w2, calls2, raised2. repeat split.
  - apply Forall_forall. intros k I. now apply S1.
  - apply Forall_forall. intros k I. now apply S2.
Qed.

(** X11: every call the context manager [controls] makes is on a control
    whose provider type is ["python"] and whose scope holds ["pre"] or
    ["post"]: a control with another provider type, or scoped only to
    other words, is never called. *)
Theorem controls_calls_only_scoped_python (level : string)
  (experiment : Experiment) (context : ContextNode)
  (body : ControlInstance Payload -> World ->
          ControlInstance Payload * World * option Exception)
  (w : World) (k : Call Payload) :
  In k (snd (fst (controls World Payload apply_python_control
                    level experiment context body w))) ->
  is_python (call_control k) = true
  /\ (scope_in "pre" (c_scope (call_control k)) = true
      \/ scope_in "post" (c_scope (call_control k)) = true).
Proof.
  unfold controls, begin, end_.
  pose proof (fun k => apply_controls_calls level experiment context "pre"
                         None w k) as S1.
  destruct (apply_controls World Payload apply_python_control level
              experiment context "pre" None w)
    as [[[tree1 w1] calls1] raised1].
  destruct (match raised1 with
            | Some e => ({| state := None |}, w1, Some e)
            | None => body {| state := None |} w1
            end) as [[c1 w1'] pending].
  pose proof (fun k => apply_controls_calls level (fst tree1) (snd tree1)
                         "post" (state Payload c1) w1' k) as S2.
  destruct (apply_controls World Payload apply_python_control level
              (fst tree1) (snd tree1) "post" (state Payload c1) w1')
    as [[[tree2 w2] calls2] raised2].
  cbn [fst snd] in *. intro I. apply in_app_or in I.
  assert (A : applies "pre" (call_control k) = true
              \/ applies "post" (call_control k) = true).
  { destruct I as [I|I]; [left; now apply S1 | right; now apply S2]. }
  unfold applies in A.
  destruct A as [A|A]; apply andb_prop in A; destruct A as [A P];
    apply andb_prop in A; destruct A as [_ A]; auto.
Qed.

(** X12: with no control declared at the top level nor on the node,
    [apply_controls] calls nothing and changes nothing, and [controls]
    does what the block does and nothing else. *)
Theorem nothing_declared_nothing_applied (level : string)
  (experiment : Experiment) (context : ContextNode) (scope : string)
  (st : option Payload)
  (body : ControlInstance Payload -> World ->
          ControlInstance Payload * World * option Exception)
  (w : World) :
  e_controls experiment = [] ->
  context_controls experiment context = [] ->
  apply_controls World Payload apply_python_control
    level experiment context scope st w
  = ((experiment, context), w, [], None)
  /\ controls World Payload apply_python_control
       level experiment context body w
     = ((experiment, context), snd (fst (body {| state := None |} w)), [],
        snd (body {| state := None |} w)).
Proof.
  intros ET EL.
  assert (A : forall sc s0 x,
             apply_controls World Payload apply_python_control
               level experiment context sc s0 x
             = ((experiment, context), x, [], None)).
  { intros sc s0 x. unfold apply_controls.
    rewrite (get_context_controls_no_local _ _ EL), ET. reflexivity. }
  split; [apply A|].
  unfold controls, begin, end_. rewrite A.
  destruct (body {| state := None |} w) as [[c' w'] pending].
  cbn [fst snd]. rewrite A. reflexivity.
Qed.

End CallArguments.

Lemma apply_controls_call_arguments_witness :
  let k := {| call_level := "activity-post-post-post"; call_control := logging;
              call_state := Some tt; call_raised := None |} in
  nth_error
    (snd (fst (apply_controls nat unit sample_provider "activity"
                 (experiment_with [dummy; tracing_top; metrics; logging] [])
                 (CtxActivity (activity_with "probe" []))
                 "post" (Some tt) 0))) 2 = Some k
  /\ call_level k = level_tag "activity" "post" 3
  /\ call_state k = Some tt
  /\ applies "post" (call_control k) = true.
Proof.
  intro k. split; [reflexivity|].
  apply (apply_controls_call_arguments nat unit sample_provider "activity"
           (experiment_with [dummy; tracing_top; metrics; logging] [])
           (CtxActivity (activity_with "probe" [])) "post" (Some tt) 0 2 k).
  reflexivity.
Defined.

Lemma controls_runs_block_then_end_witness :
  let experiment := experiment_with [dummy] [] in
  let context := CtxActivity (activity_with "probe" []) in
  let k1 := {| call_level := "activity-pre"; call_control := dummy;
               call_state := None; call_raised := None |} in
  apply_controls nat unit sample_provider
    "activity" experiment context "pre" None 0
  = ((experiment, context), 1, [k1], None)
  /\ failing_block {| state := None |} 1
     = ({| state := Some tt |}, 1, Some (OtherException "block"))
  /\ exists tree2 w2 calls2 raised2,
       apply_controls nat unit sample_provider
         "activity" experiment context "post" (Some tt) 1
       = (tree2, w2, calls2, raised2)
       /\ controls nat unit sample_provider
            "activity" experiment context failing_block 0
          = (tree2, w2, [k1] ++ calls2,
             match raised2 with
             | Some e => Some e
             | None => Some (OtherException "block")
             end)
       /\ Forall (fun k => call_state k = None) [k1]
       /\ Forall (fun k => call_state k = Some tt) calls2.
Proof.
  intros experiment context k1.
  split; [reflexivity|]. split; [reflexivity|].
  apply (controls_runs_block_then_end nat unit sample_provider "activity"
           experiment context failing_block 0 1 1 (experiment, context) [k1]
           {| state := Some tt |} (Some (OtherException "block")));
    reflexivity.
Defined.

Lemma controls_calls_only_scoped_python_witness :
  let k : Call unit :=
    {| call_level := "activity-pre"; call_control := dummy;
       call_state := None; call_raised := None |} in
  map call_control
    (snd (fst (controls nat unit sample_provider "activity"
                 (experiment_with [misscoped; http_control; dummy] [])
                 (CtxActivity (activity_with "probe" []))
                 (fun c w => (c, w, None)) 0)))
  = [dummy; dummy]
  /\ is_python (call_control k) = true
  /\ (scope_in "pre" (c_scope (call_control k)) = true
      \/ scope_in "post" (c_scope (call_control k)) = true).
Proof.
  intro k. split; [reflexivity|].
  apply (controls_calls_only_scoped_python nat unit sample_provider "activity"
           (experiment_with [misscoped; http_control; dummy] [])
           (CtxActivity (activity_with "probe" []))
           (fun c w => (c, w, None)) 0 k).
  simpl. auto.
Defined.

Lemma nothing_declared_nothing_applied_witness :
  let experiment := experiment_with [] [activity_with "probe" []] in
  let context := CtxActivity (activity_with "probe" []) in
  apply_controls nat unit sample_provider
    "activity" experiment context "pre" None 0
  = ((experiment, context), 0, [], None)
  /\ controls nat unit sample_provider
       "activity" experiment context failing_block 0
     = ((experiment, context), snd (fst (failing_block {| state := None |} 0)),
        [], snd (failing_block {| state := None |} 0)).
Proof.
  intros experiment context.
  apply (nothing_declared_nothing_applied nat unit sample_provider "activity"
           experiment context "pre" None failing_block 0); reflexivity.
Defined.

(** ** initialize_controls, cleanup_controls: which controls are handled *)

Section Handling.

Variable World : Type.
Variable hook : Control -> World -> World * option Exception.

Lemma once_per_name_called_python (controls : list Control) (seen : list string)
  (w : World) (c : Control) :
  In c (snd (fst (once_per_name World hook controls seen w))) ->
  str_truthy (c_name c) = true /\ python_provider_declared c = inl true.
Proof.
  revert seen w.
  induction controls as [|control rest IH]; intros seen w; simpl; [tauto|].
  destruct (c_name control) as [name|] eqn:Cn; [|apply IH].
  destruct (String.eqb name "") eqn:Em; cbn [negb orb]; [apply IH|].
  destruct (existsb (String.eqb name) seen); [apply IH|].
  destruct (python_provider_declared control) as [[|]|e] eqn:P.
  - destruct (hook control w) as [w1 [e|]].
    + simpl. intros [<- | []]. split; [|exact P].
      rewrite Cn. simpl. now rewrite Em.
    + pose proof (IH (seen ++ [name]) w1) as IH'.
      destruct (once_per_name World hook rest (seen ++ [name]) w1)
        as [[w2 called] raised].
      cbn [fst snd] in *. intros [<- | I]; [|now apply IH'].
      split; [|exact P]. rewrite Cn. simpl. now rewrite Em.
  - apply IH.
  - simpl. tauto.
Qed.

Lemma once_per_name_first_decides (before after : list Control) (d : Control)
  (n : string) (seen : list string) (w : World) :
  (forall c x, snd (hook c x) = None) ->
  (forall c e, In c (before ++ d :: after) ->
               python_provider_declared c <> inr e) ->
  c_name d = Some n -> n <> "" -> ~ In n seen ->
  (forall x, In x before -> c_name x <> Some n) ->
  let called :=
    snd (fst (once_per_name World hook (before ++ d :: after) seen w)) in
  (python_provider_declared d = inl true -> In d called)
  /\ (python_provider_declared d = inl false ->
      forall c, In c called -> c_name c <> Some n).
Proof.
  intros Quiet NoKey Nd Ne. revert seen w.
  induction before as [|x before IH]; intros seen w Ns Nb; cbn zeta.
  - cbn [app once_per_name str_truthy]. rewrite Nd.
    assert (Em : String.eqb n "" = false) by now apply String.eqb_neq.
    rewrite Em. cbn [negb orb].
    destruct (existsb (String.eqb n) seen) eqn:Ex;
      [apply existsb_eqb_In in Ex; contradiction|].
    destruct (python_provider_declared d) as [[|]|e] eqn:P.
    + pose proof (Quiet d w) as Q. destruct (hook d w) as [w1 r1].
      cbn [snd] in Q. subst r1.
      destruct (once_per_name World hook after (seen ++ [n]) w1)
        as [[w2 called] raised].
      cbn [fst snd]. split; [simpl; auto | discriminate].
    + split; [discriminate|]. intros _ c I E.
      destruct (once_per_name_calls World hook after (seen ++ [n]) w)
        as [C _].
      destruct (C c I) as (m & _ & _ & Cm & _ & Nm & _).
      rewrite Cm in E. injection E as ->.
      apply Nm. apply in_or_app. right. simpl; auto.
    + exfalso. apply (NoKey d e); [simpl; auto | exact P].
  - assert (NoKey' : forall c e, In c (before ++ d :: after) ->
                                 python_provider_declared c <> inr e)
      by (intros c e I; apply NoKey; now right).
    assert (Nb' : forall y, In y before -> c_name y <> Some n)
      by (intros y I; apply Nb; now right).
    cbn [app once_per_name str_truthy].
    destruct (c_name x) as [m|] eqn:Cx; [|apply (IH NoKey' seen w Ns Nb')].
    destruct (String.eqb m "") eqn:Em; cbn [negb orb];
      [apply (IH NoKey' seen w Ns Nb')|].
    destruct (existsb (String.eqb m) seen);
      [apply (IH NoKey' seen w Ns Nb')|].
    assert (Nm : m <> n).
    { intro E. subst m. apply (Nb x (or_introl eq_refl)). exact Cx. }
    assert (Ns' : ~ In n (seen ++ [m])).
    { intro I. apply in_app_or in I. destruct I as [I | [E | []]]; auto. }
    destruct (python_provider_declared x) as [[|]|e] eqn:P.
    + pose proof (Quiet x w) as Q. destruct (hook x w) as [w1 r1].
      cbn [snd] in Q. subst r1.
      pose proof (IH NoKey' (seen ++ [m]) w1 Ns' Nb') as IH'. cbv zeta in IH'.
      destruct (once_per_name World hook (before ++ d :: after) (seen ++ [m]) w1)
        as [[w2 called] raised].
      cbn [fst snd] in *. destruct IH' as [I1 I2]. split.
      * intro Pd. right. now apply I1.
      * intros Pd c [<- | I]; [congruence | now apply I2].
    + apply (IH NoKey' (seen ++ [m]) w Ns' Nb').
    + exfalso. apply (NoKey x e); [simpl; auto | exact P].
Qed.


End Handling.

(** X13: [initialize_controls] and [cleanup_controls] call the provider
    function only on controls that have a non-empty name and a provider
    of type ["python"]: a bare [ref] entry, an unnamed control or a
    control with another provider is never initialized nor cleaned up. *)
Theorem only_named_python_controls_handled (World : Type)
  (initialize_control cleanup_control :
     Control -> World -> World * option Exception)
  (experiment : Experiment) (w : World) (c : Control) :
  In c (snd (fst (initialize_controls World initialize_control experiment w)))
  \/ In c (snd (fst (cleanup_controls World cleanup_control experiment w))) ->
  (exists n, c_name c = Some n /\ n <> "")
  /\ is_python c = true.
Proof.
  unfold initialize_controls, cleanup_controls.
  assert (G : str_truthy (c_name c) = true
              /\ python_provider_declared c = inl true ->
              (exists n, c_name c = Some n /\ n <> "") /\ is_python c = true).
  { intros [T P]. split.
    - destruct (c_name c) as [n|]; [|discriminate]. exists n. split; auto.
      intros ->. discriminate.
    - unfold python_provider_declared in P. unfold is_python.
      destruct (c_provider c) as [p|]; [|discriminate].
      destruct (provider_truthy p); [|discriminate].
      destruct (p_type p) as [t|]; [|discriminate].
      injection P as P. exact P. }
  intros [I|I]; apply G; eapply once_per_name_called_python; exact I.
Qed.

(** X14: the first declaration of a name decides for the name.  When the
    provider function never raises and no provider dictionary lacks its
    ["type"], the first control declared with a given non-empty name is
    initialized if its provider is of type ["python"]; if it is not, no
    control of that name is initialized, not even a later declaration
    with a python provider. *)
Theorem first_declaration_decides (World : Type)
  (initialize_control : Control -> World -> World * option Exception)
  (experiment : Experiment) (w : World)
  (before after : list Control) (d : Control) (n : string) :
  (forall c x, snd (initialize_control c x) = None) ->
  (forall c e, In c (get_controls experiment) ->
               python_provider_declared c <> inr e) ->
  get_controls experiment = before ++ d :: after ->
  c_name d = Some n -> n <> "" ->
  (forall x, In x before -> c_name x <> Some n) ->
  let called :=
    snd (fst (initialize_controls World initialize_control experiment w)) in
  (python_provider_declared d = inl true -> In d called)
  /\ (python_provider_declared d = inl false ->
      forall c, In c called -> c_name c <> Some n).
Proof.
  intros Quiet NoKey E Nd Ne Nb. unfold initialize_controls. rewrite E in *.
  apply once_per_name_first_decides; auto.
Qed.

Section Raising.

Variable World : Type.
Variable hook : Control -> World -> World * option Exception.



End Raising.


Lemma only_named_python_controls_handled_witness :
  snd (fst (initialize_controls nat counting_hook
              (experiment_with [ref_control "dummy"; http_control; anonymous; dummy]
                 [activity_with "probe" [dummy; metrics]]) 0))
  = [dummy; metrics]
  /\ (exists n, c_name metrics = Some n /\ n <> "")
  /\ is_python metrics = true.
Proof.
  split; [reflexivity|].
  apply (only_named_python_controls_handled nat counting_hook counting_hook
           (experiment_with [ref_control "dummy"; http_control; anonymous; dummy]
              [activity_with "probe" [dummy; metrics]]) 0 metrics).
  left. simpl. auto.
Defined.

Lemma first_declaration_decides_witness :
  let experiment :=
    experiment_with [dummy; shared_http]
      [activity_with "probe" [shared_python]] in
  snd (fst (initialize_controls nat counting_hook experiment 0)) = [dummy]
  /\ (python_provider_declared shared_http = inl true ->
      In shared_http
        (snd (fst (initialize_controls nat counting_hook experiment 0))))
  /\ (python_provider_declared shared_http = inl false ->
      forall c,
        In c (snd (fst (initialize_controls nat counting_hook experiment 0))) ->
        c_name c <> Some "shared").
Proof.
  intro experiment. split; [reflexivity|].
  apply (first_declaration_decides nat counting_hook experiment 0
           [dummy] [shared_python] shared_http "shared").
  - reflexivity.
  - intros c e [<- | [<- | [<- | []]]]; discriminate.
  - reflexivity.
  - reflexivity.
  - discriminate.
  - intros x [<- | []]. discriminate.
Defined.


(** ** get_context_controls called again *)

(** X8: at a node other than the experiment, with local controls, a second
    call finds the list the first call returned in place of the
    declarations: it returns that list followed by what each of its
    entries appends, so everything the first call inherited is
    inherited once more. *)
Theorem second_call_appends_again (experiment : Experiment)
  (context : ContextNode) (res1 res2 : list Control) :
  context <> CtxExperiment ->
  context_controls experiment context <> [] ->
  snd (get_context_controls experiment context) = inl res1 ->
  let after := fst (get_context_controls experiment context) in
  snd (get_context_controls (fst after) (snd after)) = inl res2 ->
  res1 = context_controls experiment context
         ++ flat_map (appended_by (e_controls experiment))
              (context_controls experiment context)
  /\ res2 = res1 ++ flat_map (appended_by (e_controls experiment)) res1.
Proof.
  intros NE NL R1 after R2.
  pose proof (node_list_after_call experiment context res1 R1 NL) as H.
  pose proof (top_level_after_call experiment context NE) as S.
  fold after in H, S.
  pose proof (get_context_controls_merged experiment context res1 NL R1) as M1.
  split; [exact M1|].
  pose proof (get_context_controls_merged (fst after) (snd after) res2) as M2.
  rewrite H, S in M2. apply M2; [|exact R2].
  rewrite M1. intro E. apply app_eq_nil in E. destruct E as [E _]. now apply NL.
Qed.

Lemma second_call_appends_again_witness :
  let experiment := experiment_with [dummy] [] in
  let context := CtxActivity (activity_with "probe" [metrics]) in
  [metrics; dummy] = [metrics] ++ flat_map (appended_by [dummy]) [metrics]
  /\ [metrics; dummy; dummy]
     = [metrics; dummy] ++ flat_map (appended_by [dummy]) [metrics; dummy].
Proof.
  intros experiment context.
  apply (second_call_appends_again experiment context
           [metrics; dummy] [metrics; dummy; dummy]);
    try reflexivity; discriminate.
Defined.
